(** * FinancialWellnessHub: the storage layer and the advice summary

    A shallow embedding of [server/storage.ts] (class [DatabaseStorage]) and
    of the mood summary of [server/openai.ts], with the properties of the
    balance-mutation engine, the goal updater, the read helpers and the
    dominant-mood computation.

    Numbers.  The code does its arithmetic on ECMAScript Numbers:
    [parseFloat(col.toString())], [+], [-], [<], [>=], and writes the result
    back with [.toString()].  A Number is an IEEE 754 binary64 value; it is
    modelled by the Standard Library's [spec_float] at precision 53 and
    maximal exponent 1024, whose operations round to nearest, ties to even.

    Numeric columns.  A [numeric] column holds decimal text.  Every read the
    code makes of such a column goes through [parseFloat], so a column is
    represented by the Number that [parseFloat] reads from it.  Writing
    [x.toString()] and reading it back gives [x] again, except that the text
    of negative zero is ["0"]: see [stored].

    Amounts of requests.  [transferFunds] and [updateSavingGoal] read the
    text of their amount with [parseFloat] before they write anything, and
    write [.toString()] of what they computed: their amount is the Number
    [parseFloat] makes of the text, NaN for text it cannot read.
    [createTransaction] inserts the text of [InsertTransaction.amount] into
    the numeric column as it is and reads it with [parseFloat] afterwards:
    an [InsertTransaction] carries the Number of a text the column takes;
    text that is no number is refused by the column when the row is
    inserted, and none of the statements on [createTransaction] is about
    such text.

    Time.  A timestamp is its number of milliseconds, an integer; the rows
    get theirs from the column default [now()], which the operations take as
    an argument. *)

From stdpp Require Import gmap strings list.
From Stdlib Require Import ZArith Lia SpecFloat Sorted Permutation.

Local Open Scope Z_scope.

(** ** ECMAScript Numbers *)

Module Num.

Definition prec : Z := 53.
Definition emax : Z := 1024.

Definition Number : Type := spec_float.

Definition zero : Number := S754_zero false.

(** [a + b] and [a - b] *)
Definition add (a b : Number) : Number := SFadd prec emax a b.
Definition sub (a b : Number) : Number := SFsub prec emax a b.

(** [a < b] and [a >= b]; both are false when an operand is NaN *)
Definition ltb (a b : Number) : bool := SFltb a b.
Definition geb (a b : Number) : bool := SFleb b a.

(** The Number of an integer literal. *)
Definition of_Z (z : Z) : Number := binary_normalize prec emax z 0 false.

(** The Number that [parseFloat] reads from the decimal literal
    [m / 10^k]: the binary64 value nearest to it.  For [|m| < 2^53] and
    [k <= 22] both [m] and [10^k] are Numbers, and their IEEE quotient is
    that nearest value. *)
Definition decimal (m : Z) (k : nat) : Number :=
  SFdiv prec emax (of_Z m) (of_Z (10 ^ Z.of_nat k)).

(** The Number read back from a numeric column after [x.toString()] was
    written to it: the text of [-0] is ["0"]. *)
Definition stored (x : Number) : Number :=
  match x with
  | S754_zero _ => S754_zero false
  | _ => x
  end.

Definition is_finite (x : Number) : bool :=
  match x with
  | S754_zero _ | S754_finite _ _ _ => true
  | _ => false
  end.

(** A well-formed binary64 value: the mantissa and exponent of a finite
    value are the canonical ones. *)
Definition valid (x : Number) : bool := valid_binary prec emax x.

End Num.

Export Num(Number).

(** ** Rows of the tables ([shared/schema.ts]) *)

Record BankAccount := mkBankAccount {
  acc_userId : Z;
  acc_name : string;
  accountNumber : string;
  balance : Number;
  acc_type : string
}.

Record Transaction := mkTransaction {
  tx_id : Z;
  tx_accountId : Z;
  tx_amount : Number;
  tx_description : string;
  tx_category : option string;
  tx_merchant : option string;
  tx_date : Z;
  tx_type : string
}.

Record InsertTransaction := mkInsertTransaction {
  ins_accountId : Z;
  ins_amount : Number;
  ins_description : string;
  ins_category : option string;
  ins_merchant : option string;
  ins_type : string
}.

Record TransferData := mkTransferData {
  fromAccountId : Z;
  toAccountId : Z;
  amount : Number;
  description : string
}.

Record SavingGoal := mkSavingGoal {
  goal_userId : Z;
  goal_name : string;
  targetAmount : Number;
  currentAmount : Number;
  deadline : option Z;
  completed : bool
}.

(** The column [mood] is text: the schema names 'sad', 'neutral', 'happy'
    and 'very-happy' in a comment, and [POST /api/journal] takes any
    string. *)
Abbreviation Mood := string (only parsing).

Definition sad : Mood := "sad".
Definition neutral : Mood := "neutral".
Definition happy : Mood := "happy".
Definition very_happy : Mood := "very-happy".

Record JournalEntry := mkJournalEntry {
  je_id : Z;
  je_userId : Z;
  je_entry : string;
  mood : Mood;
  je_date : Z
}.

Record AiAdvice := mkAiAdvice {
  adv_id : Z;
  adv_userId : Z;
  adv_query : string;
  adv_response : string;
  adv_date : Z
}.

(** ** The database

    [bank_accounts] and [saving_goals] are keyed by their primary key [id];
    [transactions], [journal_entries] and [ai_advices] are kept in insertion
    order, each row with its serial [id] and its [date] (the column default
    [now()]). *)

Record Store := mkStore {
  bankAccounts : gmap Z BankAccount;
  transactions : list Transaction;
  transactions_seq : Z;
  savingGoals : gmap Z SavingGoal;
  journalEntries : list JournalEntry;
  aiAdvices : list AiAdvice
}.

Definition set_bankAccounts (f : gmap Z BankAccount → gmap Z BankAccount) (s : Store) : Store :=
  mkStore (f (bankAccounts s)) (transactions s) (transactions_seq s)
          (savingGoals s) (journalEntries s) (aiAdvices s).

Definition set_savingGoals (f : gmap Z SavingGoal → gmap Z SavingGoal) (s : Store) : Store :=
  mkStore (bankAccounts s) (transactions s) (transactions_seq s)
          (f (savingGoals s)) (journalEntries s) (aiAdvices s).

Definition set_balance (b : Number) (a : BankAccount) : BankAccount :=
  mkBankAccount (acc_userId a) (acc_name a) (accountNumber a) (Num.stored b) (acc_type a).

(** ** Database transactions

    The body of [db.transaction(async (tx) => ...)] reads and writes the
    store and may throw; a throw rolls every write back. *)

Definition Tx (A : Type) : Type := Store → string + (A * Store).

Definition ret {A} (a : A) : Tx A := λ s, inr (a, s).
Definition throw {A} (msg : string) : Tx A := λ _, inl msg.
Definition bind {A B} (c : Tx A) (k : A → Tx B) : Tx B :=
  λ s, match c s with
       | inl e => inl e
       | inr (a, s') => k a s'
       end.

Declare Scope tx_scope.
Delimit Scope tx_scope with tx.
Notation "x <~ c ;; k" := (bind c (λ x, k))
  (at level 100, c at next level, right associativity) : tx_scope.
Notation "c ;;; k" := (bind c (λ _, k))
  (at level 100, right associativity) : tx_scope.

Inductive Outcome (A : Type) : Type :=
| Returned (a : A)
| Thrown (msg : string).
Arguments Returned {A} a.
Arguments Thrown {A} msg.

(** [db.transaction(body)]: commit on return, roll back on throw. *)
Definition transaction {A} (body : Tx A) (s : Store) : Outcome A * Store :=
  match body s with
  | inr (a, s') => (Returned a, s')
  | inl e => (Thrown e, s)
  end.

(** [tx.select().from(bankAccounts).where(eq(bankAccounts.id, id))], first row *)
Definition select_account (id : Z) : Tx (option BankAccount) :=
  λ s, inr (bankAccounts s !! id, s).

(** [tx.insert(transactions).values(v).returning()], first row: the row gets
    the next serial id and the current time. *)
Definition insert_transaction (now : Z) (v : InsertTransaction) : Tx Transaction :=
  λ s,
    let row := mkTransaction (transactions_seq s) (ins_accountId v) (Num.stored (ins_amount v))
                 (ins_description v) (ins_category v) (ins_merchant v) now (ins_type v) in
    inr (row, mkStore (bankAccounts s) (transactions s ++ [row]) (transactions_seq s + 1)
                      (savingGoals s) (journalEntries s) (aiAdvices s)).

(** [tx.update(bankAccounts).set({ balance }).where(eq(bankAccounts.id, id))] *)
Definition update_balance (id : Z) (b : Number) : Tx unit :=
  λ s, inr (tt, set_bankAccounts (alter (set_balance b) id) s).

(** ** Bank accounts *)

Definition getBankAccount (id : Z) (s : Store) : option BankAccount :=
  bankAccounts s !! id.

Definition getBankAccountsByUserId (userId : Z) (s : Store) : list (Z * BankAccount) :=
  filter (λ r, acc_userId r.2 = userId) (map_to_list (bankAccounts s)).

(** ** The balance-mutation engine *)

Local Open Scope tx_scope.

Definition createTransaction_body (now : Z) (insertTransaction : InsertTransaction)
  : Tx Transaction :=
  newTransaction <~ insert_transaction now insertTransaction ;;
  account <~ select_account (ins_accountId insertTransaction) ;;
  match account with
  | Some account =>
      let currentBalance := balance account in
      let newBalance :=
        if String.eqb (ins_type insertTransaction) "debit"
        then Num.sub currentBalance (ins_amount insertTransaction)
        else Num.add currentBalance (ins_amount insertTransaction) in
      update_balance (ins_accountId insertTransaction) newBalance ;;;
      ret newTransaction
  | None => ret newTransaction
  end.

Definition createTransaction (now : Z) (insertTransaction : InsertTransaction) (s : Store)
  : Outcome Transaction * Store :=
  transaction (createTransaction_body now insertTransaction) s.

(** [s.substring(s.length - 4)]: the last four characters, the whole string
    when it is shorter. *)
Definition last4 (s : string) : string :=
  String.substring (String.length s - 4)%nat 4 s.

Definition transferFunds_body (now : Z) (transferData : TransferData)
  : Tx (Transaction * Transaction) :=
  let fromAccountId := fromAccountId transferData in
  let toAccountId := toAccountId transferData in
  sourceAccount <~ select_account fromAccountId ;;
  targetAccount <~ select_account toAccountId ;;
  match sourceAccount, targetAccount with
  | Some sourceAccount, Some targetAccount =>
      let sourceBalance := balance sourceAccount in
      let transferAmount := amount transferData in
      if Num.ltb sourceBalance transferAmount
      then throw "Insufficient funds for transfer"
      else
        sourceTransaction <~ insert_transaction now
          (mkInsertTransaction fromAccountId transferAmount
             ("Transfer: " +:+ description transferData)
             (Some "Transfer") (Some "NeuroBank") "debit") ;;
        targetTransaction <~ insert_transaction now
          (mkInsertTransaction toAccountId transferAmount
             ("Transfer from account " +:+ last4 (accountNumber sourceAccount))
             (Some "Transfer") (Some "NeuroBank") "credit") ;;
        update_balance fromAccountId (Num.sub sourceBalance transferAmount) ;;;
        let targetBalance := balance targetAccount in
        update_balance toAccountId (Num.add targetBalance transferAmount) ;;;
        ret (sourceTransaction, targetTransaction)
  | _, _ => throw "One or both accounts do not exist"
  end.

Definition transferFunds (now : Z) (transferData : TransferData) (s : Store)
  : Outcome (Transaction * Transaction) * Store :=
  transaction (transferFunds_body now transferData) s.

Local Close Scope tx_scope.

(** ** Saving goals *)

Definition getSavingGoal (id : Z) (s : Store) : option SavingGoal :=
  savingGoals s !! id.

(** [tx.select().from(savingGoals).where(eq(savingGoals.id, id))], first row *)
Definition select_goal (id : Z) : Tx (option SavingGoal) :=
  λ s, inr (savingGoals s !! id, s).

Definition set_progress (newAmount : Number) (done : bool) (g : SavingGoal) : SavingGoal :=
  mkSavingGoal (goal_userId g) (goal_name g) (targetAmount g) (Num.stored newAmount)
               (deadline g) done.

(** [tx.update(savingGoals).set({ currentAmount, completed })
       .where(eq(savingGoals.id, id)).returning()], first row *)
Definition update_goal (id : Z) (newAmount : Number) (done : bool) : Tx (option SavingGoal) :=
  λ s, let s' := set_savingGoals (alter (set_progress newAmount done) id) s in
       inr (savingGoals s' !! id, s').

Local Open Scope tx_scope.

Definition updateSavingGoal_body (id : Z) (amount : Number) : Tx (option SavingGoal) :=
  goal <~ select_goal id ;;
  match goal with
  | None => ret None
  | Some goal =>
      let currentAmount := currentAmount goal in
      let additionalAmount := amount in
      let newAmount := Num.add currentAmount additionalAmount in
      let targetAmount := targetAmount goal in
      update_goal id newAmount (Num.geb newAmount targetAmount)
  end.

Local Close Scope tx_scope.

Definition updateSavingGoal (id : Z) (amount : Number) (s : Store)
  : Outcome (option SavingGoal) * Store :=
  transaction (updateSavingGoal_body id amount) s.

(** ** Read helpers *)

(** [Array.prototype.sort(compareFn)]: a stable sort; [a] stays before [b]
    unless [compareFn(a, b) > 0]. *)
Fixpoint sort_insert {A} (compareFn : A → A → Z) (x : A) (l : list A) : list A :=
  match l with
  | [] => [x]
  | y :: l' => if 0 <? compareFn x y then y :: sort_insert compareFn x l' else x :: l
  end.

Definition Array_sort {A} (compareFn : A → A → Z) (l : list A) : list A :=
  foldr (sort_insert compareFn) [] l.

(** [.orderBy(desc(column))]: rows with the larger value first; rows with
    equal values stay in table order. *)
Definition orderBy_desc {A} (column : A → Z) (rows : list A) : list A :=
  Array_sort (λ a b, column b - column a) rows.

Definition getTransactionsByAccountId (accountId : Z) (s : Store) : list Transaction :=
  orderBy_desc tx_date (filter (λ t, tx_accountId t = accountId) (transactions s)).

Definition getTransactionsByUserId (userId : Z) (s : Store) : list Transaction :=
  let userAccounts := getBankAccountsByUserId userId s in
  if decide (length userAccounts = 0%nat) then []
  else
    let allTransactions :=
      foldl (λ all account, all ++ getTransactionsByAccountId account.1 s) [] userAccounts in
    Array_sort (λ a b, tx_date b - tx_date a) allTransactions.

Definition getJournalEntriesByUserId (userId : Z) (s : Store) : list JournalEntry :=
  orderBy_desc je_date (filter (λ e, je_userId e = userId) (journalEntries s)).

Definition getAiAdvicesByUserId (userId : Z) (s : Store) : list AiAdvice :=
  orderBy_desc adv_date (filter (λ a, adv_userId a = userId) (aiAdvices s)).

(** ** The dominant mood ([generateFinancialAdvice], server/openai.ts)

    [moodCounts] is an object literal used as a map from moods to counts.
    Any string can be a mood, and an object does not treat all strings
    alike:
    - a read [moodCounts[mood]] of a name the object does not own finds the
      member of [Object.prototype] of that name, when there is one;
    - a write [moodCounts["__proto__"] = v] calls the setter of the
      prototype, which ignores a [v] that is neither an object nor null;
    - [Object.entries] lists the keys that are array indices first, in
      ascending order, and after them the other keys in the order they were
      created. *)

(** What a read of [moodCounts] gives and what is written back: a count; a
    string, which is the text of a function or of a string with "1" put
    after it and which no comparison reads as a number; a member of
    [Object.prototype]. *)
Inductive JsValue :=
  | undefined
  | number (n : nat)
  | text
  | builtin.

(** The names of the members of [Object.prototype]. *)
Definition Object_prototype : list string :=
  [ "constructor"; "__defineGetter__"; "__defineSetter__"; "hasOwnProperty";
    "__lookupGetter__"; "__lookupSetter__"; "isPrototypeOf"; "propertyIsEnumerable";
    "toString"; "valueOf"; "__proto__"; "toLocaleString" ].

(** An array index: the canonical decimal text of an integer from 0 to
    2^32 - 2. *)
Definition digit_of (c : Ascii.ascii) : option N :=
  let n := Ascii.N_of_ascii c in
  if ((48 <=? n) && (n <=? 57))%N then Some (n - 48)%N else None.

Fixpoint decimal_digits (acc : N) (s : string) : option N :=
  match s with
  | EmptyString => Some acc
  | String c rest =>
      match digit_of c with
      | Some d => decimal_digits (10 * acc + d)%N rest
      | None => None
      end
  end.

Definition array_index (key : string) : option N :=
  match key with
  | EmptyString => None
  | String c rest =>
      if bool_decide (String c EmptyString = "0") && negb (bool_decide (rest = EmptyString))
      then None
      else match decimal_digits 0 key with
           | Some n => if (n <? 2 ^ 32 - 1)%N then Some n else None
           | None => None
           end
  end.

(** The own properties of an object, in the order they were created. *)
Fixpoint own_property (o : list (string * JsValue)) (key : string) : option JsValue :=
  match o with
  | [] => None
  | (k, v) :: rest => if decide (k = key) then Some v else own_property rest key
  end.

Fixpoint define_property (o : list (string * JsValue)) (key : string) (v : JsValue)
  : list (string * JsValue) :=
  match o with
  | [] => [(key, v)]
  | (k, c) :: rest =>
      if decide (k = key) then (k, v) :: rest else (k, c) :: define_property rest key v
  end.

(** [o[key]] *)
Definition Object_get (o : list (string * JsValue)) (key : string) : JsValue :=
  match own_property o key with
  | Some v => v
  | None => if decide (key ∈ Object_prototype) then builtin else undefined
  end.

(** [o[key] = v], for [v] a number or a string *)
Definition Object_set (o : list (string * JsValue)) (key : string) (v : JsValue)
  : list (string * JsValue) :=
  if decide (key = "__proto__") then o else define_property o key v.

(** [(v || 0) + 1]: a count is incremented, anything else that is truthy
    is turned into a string and "1" is put after it. *)
Definition or_zero_plus_one (v : JsValue) : JsValue :=
  match v with
  | undefined => number (0 + 1)
  | number n => number (n + 1)
  | text | builtin => text
  end.

(** [Object.entries(o)] *)
Definition Object_entries (o : list (string * JsValue)) : list (string * JsValue) :=
  let indices := omap (λ p, (λ i, (i, p)) <$> array_index p.1) o in
  (snd <$> Array_sort (λ a b, Z.of_N a.1 - Z.of_N b.1) indices)
    ++ filter (λ p, array_index p.1 = None) o.

(** [moodCounts[mood] = (moodCounts[mood] || 0) + 1] *)
Definition count_mood (m : Mood) (moodCounts : list (string * JsValue))
  : list (string * JsValue) :=
  Object_set moodCounts m (or_zero_plus_one (Object_get moodCounts m)).

Definition recentJournalEntries (journalEntries : list JournalEntry) : list JournalEntry :=
  take 5 journalEntries.

Definition moodCounts (recent : list JournalEntry) : list (string * JsValue) :=
  foldl (λ counts entry, count_mood (mood entry) counts) [] recent.

(** [if (count > maxCount) { maxCount = count; primaryMood = mood; }]: a
    string is not greater than a number. *)
Definition greater (acc : nat * Mood) (entry : string * JsValue) : nat * Mood :=
  let '(maxCount, primaryMood) := acc in
  let '(m, count) := entry in
  match count with
  | number count => if (maxCount <? count)%nat then (count, m) else (maxCount, primaryMood)
  | _ => (maxCount, primaryMood)
  end.

Definition primaryMood (journalEntries : list JournalEntry) : Mood :=
  let recent := recentJournalEntries journalEntries in
  if decide (0 < length recent)%nat then
    snd (foldl greater (0%nat, neutral) (Object_entries (moodCounts recent)))
  else neutral.

(** The journal entries [POST /api/ai/advice] hands to the generator are
    [storage.getJournalEntriesByUserId(user.id)] (server/routes.ts). *)
Definition dominantMood (userId : Z) (s : Store) : Mood :=
  primaryMood (getJournalEntriesByUserId userId s).

(** * The rest of the storage layer

    The remaining methods of [DatabaseStorage].  The tables the methods
    above never insert into get their serial ids from sequences of their
    own, kept beside the store together with the [users] table. *)

(** [tx.update(bankAccounts).set({ balance }).where(eq(bankAccounts.id, id))
       .returning()], first row *)
Definition updateBankAccountBalance (id : Z) (balance : Number) (s : Store)
  : option BankAccount * Store :=
  let s' := set_bankAccounts (alter (set_balance balance) id) s in
  (bankAccounts s' !! id, s').

(** [db.select().from(transactions).where(eq(transactions.id, id))], first row *)
Definition getTransaction (id : Z) (s : Store) : option Transaction :=
  head (filter (λ t, tx_id t = id) (transactions s)).

Definition getSavingGoalsByUserId (userId : Z) (s : Store) : list (Z * SavingGoal) :=
  filter (λ r, goal_userId r.2 = userId) (map_to_list (savingGoals s)).

Definition getJournalEntry (id : Z) (s : Store) : option JournalEntry :=
  head (filter (λ e, je_id e = id) (journalEntries s)).

Definition getAiAdvice (id : Z) (s : Store) : option AiAdvice :=
  head (filter (λ a, adv_id a = id) (aiAdvices s)).

Record User := mkUser {
  user_id : Z;
  username : string;
  password : string;
  user_name : string;
  email : string
}.

Record InsertUser := mkInsertUser {
  iu_username : string;
  iu_password : string;
  iu_name : string;
  iu_email : string
}.

(** [balance] may be left out of an insert: the column default is "0". *)
Record InsertBankAccount := mkInsertBankAccount {
  iba_userId : Z;
  iba_name : string;
  iba_accountNumber : string;
  iba_balance : option Number;
  iba_type : string
}.

Record InsertSavingGoal := mkInsertSavingGoal {
  isg_userId : Z;
  isg_name : string;
  isg_targetAmount : Number;
  isg_deadline : option Z
}.

Record InsertJournalEntry := mkInsertJournalEntry {
  ije_userId : Z;
  ije_entry : string;
  ije_mood : Mood
}.

(** [InsertAiAdvice & { response: string }] *)
Record InsertAiAdvice := mkInsertAiAdvice {
  iaa_userId : Z;
  iaa_query : string;
  iaa_response : string
}.

Record Database := mkDatabase {
  store : Store;
  users : list User;
  users_seq : Z;
  bankAccounts_seq : Z;
  savingGoals_seq : Z;
  journalEntries_seq : Z;
  aiAdvices_seq : Z
}.

Definition set_store (s : Store) (d : Database) : Database :=
  mkDatabase s (users d) (users_seq d) (bankAccounts_seq d) (savingGoals_seq d)
             (journalEntries_seq d) (aiAdvices_seq d).

(** The error of the database when an insert breaks a primary key or a
    [unique()] column. *)
Definition unique_violation (constraint : string) : string :=
  "duplicate key value violates unique constraint " +:+ constraint.

Definition getUser (id : Z) (d : Database) : option User :=
  head (filter (λ u, user_id u = id) (users d)).

Definition getUserByUsername (name : string) (d : Database) : option User :=
  head (filter (λ u, username u = name) (users d)).

(** [db.insert(users).values(insertUser).returning()]: the sequence advances
    whether the insert succeeds or not; [username] and [email] are
    [unique()]. *)
Definition createUser (insertUser : InsertUser) (d : Database) : Outcome User * Database :=
  let id := users_seq d in
  let d' := mkDatabase (store d) (users d) (id + 1) (bankAccounts_seq d)
              (savingGoals_seq d) (journalEntries_seq d) (aiAdvices_seq d) in
  if bool_decide (id ∈ user_id <$> users d) then (Thrown (unique_violation "users_pkey"), d')
  else if bool_decide (iu_username insertUser ∈ username <$> users d)
  then (Thrown (unique_violation "users_username_unique"), d')
  else if bool_decide (iu_email insertUser ∈ email <$> users d)
  then (Thrown (unique_violation "users_email_unique"), d')
  else
    let user := mkUser id (iu_username insertUser) (iu_password insertUser)
                  (iu_name insertUser) (iu_email insertUser) in
    (Returned user,
     mkDatabase (store d) (users d ++ [user]) (id + 1) (bankAccounts_seq d)
       (savingGoals_seq d) (journalEntries_seq d) (aiAdvices_seq d)).

(** [db.insert(bankAccounts).values(insertAccount).returning()] *)
Definition createBankAccount (insertAccount : InsertBankAccount) (d : Database)
  : Outcome (Z * BankAccount) * Database :=
  let id := bankAccounts_seq d in
  let d' := mkDatabase (store d) (users d) (users_seq d) (id + 1)
              (savingGoals_seq d) (journalEntries_seq d) (aiAdvices_seq d) in
  match bankAccounts (store d) !! id with
  | Some _ => (Thrown (unique_violation "bank_accounts_pkey"), d')
  | None =>
      let account := mkBankAccount (iba_userId insertAccount) (iba_name insertAccount)
                       (iba_accountNumber insertAccount)
                       (Num.stored (default Num.zero (iba_balance insertAccount)))
                       (iba_type insertAccount) in
      (Returned (id, account),
       set_store (set_bankAccounts (insert id account) (store d)) d')
  end.

(** [createSavingGoal]: the goal starts at [currentAmount: "0"],
    [completed: false]. *)
Definition createSavingGoal (insertGoal : InsertSavingGoal) (d : Database)
  : Outcome (Z * SavingGoal) * Database :=
  let goalData := mkSavingGoal (isg_userId insertGoal) (isg_name insertGoal)
                    (Num.stored (isg_targetAmount insertGoal)) (Num.stored Num.zero)
                    (isg_deadline insertGoal) false in
  let id := savingGoals_seq d in
  let d' := mkDatabase (store d) (users d) (users_seq d) (bankAccounts_seq d)
              (id + 1) (journalEntries_seq d) (aiAdvices_seq d) in
  match savingGoals (store d) !! id with
  | Some _ => (Thrown (unique_violation "saving_goals_pkey"), d')
  | None =>
      (Returned (id, goalData),
       set_store (set_savingGoals (insert id goalData) (store d)) d')
  end.

Definition createJournalEntry (now : Z) (insertEntry : InsertJournalEntry) (d : Database)
  : Outcome JournalEntry * Database :=
  let id := journalEntries_seq d in
  let d' := mkDatabase (store d) (users d) (users_seq d) (bankAccounts_seq d)
              (savingGoals_seq d) (id + 1) (aiAdvices_seq d) in
  if bool_decide (id ∈ je_id <$> journalEntries (store d))
  then (Thrown (unique_violation "journal_entries_pkey"), d')
  else
    let s := store d in
    let entry := mkJournalEntry id (ije_userId insertEntry) (ije_entry insertEntry)
                   (ije_mood insertEntry) now in
    (Returned entry,
     set_store (mkStore (bankAccounts s) (transactions s) (transactions_seq s)
                  (savingGoals s) (journalEntries s ++ [entry]) (aiAdvices s)) d').

Definition createAiAdvice (now : Z) (insertAdvice : InsertAiAdvice) (d : Database)
  : Outcome AiAdvice * Database :=
  let id := aiAdvices_seq d in
  let d' := mkDatabase (store d) (users d) (users_seq d) (bankAccounts_seq d)
              (savingGoals_seq d) (journalEntries_seq d) (id + 1) in
  if bool_decide (id ∈ adv_id <$> aiAdvices (store d))
  then (Thrown (unique_violation "ai_advices_pkey"), d')
  else
    let s := store d in
    let advice := mkAiAdvice id (iaa_userId insertAdvice) (iaa_query insertAdvice)
                    (iaa_response insertAdvice) now in
    (Returned advice,
     set_store (mkStore (bankAccounts s) (transactions s) (transactions_seq s)
                  (savingGoals s) (journalEntries s) (aiAdvices s ++ [advice])) d').

(** * The summaries of the advice generator (server/openai.ts) *)

(** [a / b] and [a * b] *)
Definition Number_div (a b : Number) : Number := SFdiv Num.prec Num.emax a b.
Definition Number_mul (a b : Number) : Number := SFmul Num.prec Num.emax a b.

Record RecentTransaction := mkRecentTransaction {
  rt_amount : Number;
  rt_description : string;
  rt_category : option string;
  rt_merchant : option string;
  rt_date : Z;
  rt_type : string
}.

(** [context.transactions.slice(0, 10).map(transaction => ({ ... }))] *)
Definition recentTransactions (transactions : list Transaction) : list RecentTransaction :=
  (λ transaction,
     mkRecentTransaction (tx_amount transaction) (tx_description transaction)
                         (tx_category transaction) (tx_merchant transaction)
                         (tx_date transaction) (tx_type transaction))
    <$> take 10 transactions.

(** [context.accounts.reduce((sum, account) => sum + parseFloat(...), 0)] *)
Definition totalBalance (accounts : list BankAccount) : Number :=
  foldl (λ sum account, Num.add sum (balance account)) Num.zero accounts.

Record GoalProgress := mkGoalProgress {
  gp_name : string;
  gp_targetAmount : Number;
  gp_currentAmount : Number;
  progressPercentage : Number;
  gp_deadline : option Z
}.

Definition savingsProgress (goals : list SavingGoal) : list GoalProgress :=
  (λ goal,
     let targetAmount := targetAmount goal in
     let currentAmount := currentAmount goal in
     let progressPercentage :=
       Number_mul (Number_div currentAmount targetAmount) (Num.of_Z 100) in
     mkGoalProgress (goal_name goal) targetAmount currentAmount progressPercentage
                    (deadline goal)) <$> goals.

(** * The routes (server/routes.ts)

    A handler gets the session's user ([None] when the request is not
    authenticated), the request body as its schema parses it ([inl] with the
    parser's message when it does not), and the store; it answers with a
    status and a JSON body. *)

Inductive Body (A : Type) : Type :=
| Json (a : A)
| Failure (message : string) (error : option string).
Arguments Json {A} a.
Arguments Failure {A} message error.

Record Response (A : Type) := mkResponse { status : Z; body : Body A }.
Arguments mkResponse {A} status body.
Arguments status {A} r.
Arguments body {A} r.

(** [ensureAuthenticated] *)
Definition ensureAuthenticated {A S} (session : option User)
    (next : User → S → Response A * S) (s : S) : Response A * S :=
  match session with
  | Some user => next user s
  | None => (mkResponse 401 (Failure "Unauthorized" None), s)
  end.

(** [accounts.some(account => account.id === id)] *)
Definition some_account (id : Z) (accounts : list (Z * BankAccount)) : bool :=
  existsb (λ account, bool_decide (account.1 = id)) accounts.




(** [POST /api/transactions] *)
Definition post_transactions (now : Z) (session : option User)
    (reqBody : string + InsertTransaction) (s : Store)
  : Response Transaction * Store :=
  ensureAuthenticated session (λ user s,
    match reqBody with
    | inl error => (mkResponse 400 (Failure "Failed to create transaction" (Some error)), s)
    | inr parsedData =>
        let accounts := getBankAccountsByUserId (user_id user) s in
        let isUserAccount := some_account (ins_accountId parsedData) accounts in
        if negb isUserAccount
        then (mkResponse 403 (Failure "You don't have access to this account" None), s)
        else
          match createTransaction now parsedData s with
          | (Returned transaction, s') => (mkResponse 201 (Json transaction), s')
          | (Thrown error, s') =>
              (mkResponse 400 (Failure "Failed to create transaction" (Some error)), s')
          end
    end) s.

(** [POST /api/transfer] *)
Definition post_transfer (now : Z) (session : option User)
    (reqBody : string + TransferData) (s : Store)
  : Response (Transaction * Transaction) * Store :=
  ensureAuthenticated session (λ user s,
    match reqBody with
    | inl error => (mkResponse 400 (Failure "Failed to transfer funds" (Some error)), s)
    | inr parsedData =>
        let accounts := getBankAccountsByUserId (user_id user) s in
        let isFromAccountUser := some_account (fromAccountId parsedData) accounts in
        let isToAccountUser := some_account (toAccountId parsedData) accounts in
        if negb isFromAccountUser || negb isToAccountUser
        then (mkResponse 403 (Failure "You don't have access to one or both accounts" None), s)
        else
          let transferData :=
            mkTransferData (fromAccountId parsedData) (toAccountId parsedData)
                           (amount parsedData) (description parsedData) in
          match transferFunds now transferData s with
          | (Returned result, s') => (mkResponse 201 (Json result), s')
          | (Thrown error, s') =>
              (mkResponse 400 (Failure "Failed to transfer funds" (Some error)), s')
          end
    end) s.

(** [GET /api/goals] *)
Definition get_goals (session : option User) (s : Store)
  : Response (list (Z * SavingGoal)) * Store :=
  ensureAuthenticated session (λ user s,
    (mkResponse 200 (Json (getSavingGoalsByUserId (user_id user) s)), s)) s.

(** [PATCH /api/goals/:goalId] *)
Definition patch_goal (session : option User) (goalId : Z) (reqBody : string + Number)
    (s : Store) : Response (option SavingGoal) * Store :=
  ensureAuthenticated session (λ user s,
    match reqBody with
    | inl error => (mkResponse 400 (Failure "Failed to update goal" (Some error)), s)
    | inr amount =>
        match getSavingGoal goalId s with
        | Some goal =>
            if bool_decide (goal_userId goal ≠ user_id user)
            then (mkResponse 403 (Failure "You don't have access to this goal" None), s)
            else
              match updateSavingGoal goalId amount s with
              | (Returned updatedGoal, s') => (mkResponse 200 (Json updatedGoal), s')
              | (Thrown error, s') =>
                  (mkResponse 400 (Failure "Failed to update goal" (Some error)), s')
              end
        | None => (mkResponse 403 (Failure "You don't have access to this goal" None), s)
        end
    end) s.

(** [GET /api/journal] *)
Definition get_journal (session : option User) (s : Store)
  : Response (list JournalEntry) * Store :=
  ensureAuthenticated session (λ user s,
    (mkResponse 200 (Json (getJournalEntriesByUserId (user_id user) s)), s)) s.

(** [GET /api/ai/advice] *)
Definition get_advice (session : option User) (s : Store)
  : Response (list AiAdvice) * Store :=
  ensureAuthenticated session (λ user s,
    (mkResponse 200 (Json (getAiAdvicesByUserId (user_id user) s)), s)) s.

(** [POST /api/accounts]: the body is parsed as [{...req.body, userId: user.id}] *)
Definition post_accounts (session : option User) (reqBody : string + InsertBankAccount)
    (d : Database) : Response (Z * BankAccount) * Database :=
  ensureAuthenticated session (λ user d,
    match reqBody with
    | inl error => (mkResponse 400 (Failure "Failed to create account" (Some error)), d)
    | inr body =>
        let parsedData :=
          mkInsertBankAccount (user_id user) (iba_name body) (iba_accountNumber body)
                              (iba_balance body) (iba_type body) in
        match createBankAccount parsedData d with
        | (Returned account, d') => (mkResponse 201 (Json account), d')
        | (Thrown error, d') =>
            (mkResponse 400 (Failure "Failed to create account" (Some error)), d')
        end
    end) d.

(** [POST /api/goals] *)
Definition post_goals (session : option User) (reqBody : string + InsertSavingGoal)
    (d : Database) : Response (Z * SavingGoal) * Database :=
  ensureAuthenticated session (λ user d,
    match reqBody with
    | inl error => (mkResponse 400 (Failure "Failed to create goal" (Some error)), d)
    | inr body =>
        let parsedData :=
          mkInsertSavingGoal (user_id user) (isg_name body) (isg_targetAmount body)
                             (isg_deadline body) in
        match createSavingGoal parsedData d with
        | (Returned goal, d') => (mkResponse 201 (Json goal), d')
        | (Thrown error, d') =>
            (mkResponse 400 (Failure "Failed to create goal" (Some error)), d')
        end
    end) d.

(** [POST /api/journal] *)
Definition post_journal (now : Z) (session : option User)
    (reqBody : string + InsertJournalEntry) (d : Database)
  : Response JournalEntry * Database :=
  ensureAuthenticated session (λ user d,
    match reqBody with
    | inl error => (mkResponse 400 (Failure "Failed to create journal entry" (Some error)), d)
    | inr body =>
        let parsedData :=
          mkInsertJournalEntry (user_id user) (ije_entry body) (ije_mood body) in
        match createJournalEntry now parsedData d with
        | (Returned entry, d') => (mkResponse 201 (Json entry), d')
        | (Thrown error, d') =>
            (mkResponse 400 (Failure "Failed to create journal entry" (Some error)), d')
        end
    end) d.

(** * Notions used in the statements and the proofs *)

(** ** What the engine writes *)

(** The two rows a transfer inserts, as the code builds them. *)
Definition debit_row (now : Z) (td : TransferData) (s : Store) : Transaction :=
  mkTransaction (transactions_seq s) (fromAccountId td) (Num.stored (amount td))
    ("Transfer: " +:+ description td) (Some "Transfer") (Some "NeuroBank") now "debit".

Definition credit_row (now : Z) (td : TransferData) (src : BankAccount) (s : Store)
  : Transaction :=
  mkTransaction (transactions_seq s + 1) (toAccountId td) (Num.stored (amount td))
    ("Transfer from account " +:+ last4 (accountNumber src))
    (Some "Transfer") (Some "NeuroBank") now "credit".

(** The row [createTransaction] inserts and returns. *)
Definition new_row (now : Z) (ins : InsertTransaction) (s : Store) : Transaction :=
  mkTransaction (transactions_seq s) (ins_accountId ins) (Num.stored (ins_amount ins))
    (ins_description ins) (ins_category ins) (ins_merchant ins) now (ins_type ins).

(** The balance [createTransaction] computes for an account. *)
Definition new_balance (ins : InsertTransaction) (acct : BankAccount) : Number :=
  if String.eqb (ins_type ins) "debit"
  then Num.sub (balance acct) (ins_amount ins)
  else Num.add (balance acct) (ins_amount ins).

(** ** Successive deposits *)

(** The store after one deposit, and after a list of deposits made one
    after the other. *)
Definition deposit (id : Z) (s : Store) (amount : Number) : Store :=
  (updateSavingGoal id amount s).2.

Definition deposits (id : Z) (amounts : list Number) (s : Store) : Store :=
  foldl (deposit id) s amounts.

(** The Number of a positive decimal amount: valid, finite and above zero. *)
Definition positive_amount (a : Number) : Prop :=
  Num.valid a = true ∧ Num.is_finite a = true ∧ Num.ltb Num.zero a = true.

(** The row of a goal after one deposit and after several. *)
Definition fund (g : SavingGoal) (a : Number) : SavingGoal :=
  set_progress (Num.add (currentAmount g) a)
               (Num.geb (Num.add (currentAmount g) a) (targetAmount g)) g.

Definition funded (g : SavingGoal) (l : list Number) : SavingGoal := foldl fund g l.

(** ** Order of the lists read *)

(** Each element's date is at least the next element's date. *)
Definition newest_first {A} (date : A → Z) (l : list A) : Prop :=
  ∀ (i : nat) a b, l !! i = Some a → l !! S i = Some b → date b ≤ date a.

Definition later_or_same {A} (date : A → Z) (a b : A) : Prop := date b ≤ date a.

(** The comparison the sorts use: [(a, b) => date(b) - date(a)]. *)
Definition by_date {A} (date : A → Z) (a b : A) : Z := date b - date a.

(** ** The mode of a list of moods *)

(** The mode of a list of moods, after the specification: the most
    frequent mood, and among equally frequent moods the one encountered
    first. *)
Definition occurrences (m : Mood) (l : list Mood) : nat :=
  length (filter (λ x, x = m) l).

(** [m] is met in [l] before [m'] has been met. *)
Definition encountered_before (m m' : Mood) (l : list Mood) : Prop :=
  ∃ l1 l2, l = l1 ++ m :: l2 ∧ m' ∉ l1.

Definition mode_first (l : list Mood) (m : Mood) : Prop :=
  m ∈ l ∧
  ∀ m', m' ≠ m →
    (occurrences m' l < occurrences m l)%nat ∨
    (occurrences m' l = occurrences m l ∧ encountered_before m m' l).

(** A mood that [moodCounts] handles as a plain key: not an array index
    and not the name of a member of [Object.prototype]. *)
Definition plain (m : Mood) : Prop :=
  array_index m = None ∧ m ∉ Object_prototype.

(** The moods met, in the order they were first met. *)
Definition first_seen (l : list Mood) : list Mood :=
  foldl (λ ks m, if decide (m ∈ ks) then ks else ks ++ [m]) [] l.

(** The counts of the moods met, in the order they were first met. *)
Fixpoint bump (m : Mood) (counts : list (Mood * nat)) : list (Mood * nat) :=
  match counts with
  | [] => [(m, (0 + 1)%nat)]
  | (k, c) :: rest =>
      if decide (k = m) then (k, (c + 1)%nat) :: rest
      else (k, c) :: bump m rest
  end.

Definition tally (l : list Mood) : list (Mood * nat) :=
  foldl (λ counts m, bump m counts) [] l.

(** Counts as the values of an object, and the count a value stands for in
    the scan for the maximum. *)
Definition numbers (counts : list (Mood * nat)) : list (string * JsValue) :=
  (λ p, (p.1, number p.2)) <$> counts.

Definition count_of (v : JsValue) : nat :=
  match v with
  | number n => n
  | _ => 0%nat
  end.

(** The scan for the maximum keeps the first key that reaches it. *)
Definition scan (acc : nat * Mood) (counts : list (Mood * nat)) : nat * Mood :=
  foldl (λ '(maxCount, primaryMood) '(m, count),
           if (maxCount <? count)%nat then (count, m) else (maxCount, primaryMood))
        acc counts.

(** ** Values of Numbers *)

(** The value of a finite Number, in units of [2^-1074]: an integer. *)
Definition scaled (x : Num.Number) : Z :=
  match x with
  | S754_finite s m e => cond_Zopp s (Zpos m * 2 ^ (e + 1074))
  | _ => 0
  end.

(** The spacing of the Numbers around the positive value [T], in the same
    units. *)
Definition grid (T : Z) : Z := 2 ^ Z.max (Z.log2 T - 52) 0.

Definition finite_or_zero (x : Num.Number) : Prop :=
  match x with
  | S754_zero _ | S754_finite _ _ _ => True
  | _ => False
  end.

(** Beyond the largest Number. *)
Definition huge : Z := 2 ^ 2098.

(** [r] is a result of rounding the positive value [T], with sign [s]:
    one of the two multiples of the spacing around [T], or an infinity
    when that multiple is out of range. *)
Definition rounds_to (s : bool) (T : Z) (r : Num.Number) : Prop :=
  ∃ V,
    T / grid T * grid T ≤ V ≤ (T / grid T + 1) * grid T ∧
    ((r = S754_infinity s ∧ huge ≤ V) ∨
     (∃ m e, r = S754_finite s m e ∧
             bounded Num.prec Num.emax m e = true ∧
             Zpos m * 2 ^ (e + 1074) = V)).

(** The place of a Number on the line: its value, the infinities beyond
    every value. *)
Definition rank (x : Num.Number) : Z :=
  match x with
  | S754_infinity s => cond_Zopp s huge
  | _ => scaled x
  end.

Ltac compare_cases :=
  cbn [SFcompare rank scaled cond_Zopp]; f_equal; symmetry;
  first [ apply Z.compare_eq_iff; lia
        | apply Z.compare_lt_iff; lia
        | apply Z.compare_gt_iff; lia ].

(** ** Stores and requests of the scenarios *)

(** The scenario of the specification: A holds 100.00, B holds 50.00. *)
Definition account_A : BankAccount :=
  mkBankAccount 1 "A" "ZA-0001-1111" (Num.decimal 10000 2) "checking".
Definition account_B : BankAccount :=
  mkBankAccount 1 "B" "ZA-0001-2222" (Num.decimal 5000 2) "savings".
Definition two_accounts : Store :=
  mkStore (<[1 := account_A]> (<[2 := account_B]> ∅)) [] 1 ∅ [] [].

Definition rent : TransferData := mkTransferData 1 2 (Num.decimal 3000 2) "rent".
Definition to_self : TransferData := mkTransferData 1 1 (Num.decimal 3000 2) "loop".

Definition no_accounts : Store := mkStore ∅ [] 1 ∅ [] [].

Definition coffee : InsertTransaction :=
  mkInsertTransaction 7 (Num.decimal 450 2) "Coffee" (Some "Food") None "debit".

Definition checking : BankAccount :=
  mkBankAccount 1 "Everyday" "ZA-0001-4821" (Num.of_Z 100) "checking".

Definition one_account : Store := mkStore {[ 7 := checking ]} [] 1 ∅ [] [].

Definition negative_credit : InsertTransaction :=
  mkInsertTransaction 7 (Num.of_Z (-5)) "Refund" None None "credit".

Definition holiday : SavingGoal :=
  mkSavingGoal 1 "Holiday" (Num.decimal 50000 2) (Num.decimal 45000 2) None false.

Definition one_goal : Store := mkStore ∅ [] 1 {[ 3 := holiday ]} [] [].

Definition three_deposits : list Number :=
  [Num.decimal 2000 2; Num.decimal 3000 2; Num.decimal 1000 2].

Definition tenth_account : BankAccount :=
  mkBankAccount 1 "Petty cash" "ZA-0001-0010" (Num.decimal 1 1) "checking".
Definition three_tenths_account : BankAccount :=
  mkBankAccount 1 "Float" "ZA-0001-0030" (Num.decimal 3 1) "checking".
Definition eight_tenths_goal : SavingGoal :=
  mkSavingGoal 1 "Stamp" (Num.decimal 8 1) (Num.decimal 1 1) None false.

Definition small_change : Store :=
  mkStore (<[7 := tenth_account]> (<[8 := three_tenths_account]> ∅)) [] 1
          {[ 3 := eight_tenths_goal ]} [] [].

Definition empty_stamp : Store :=
  mkStore ∅ [] 1
          {[ 3 := mkSavingGoal 1 "Stamp" (Num.decimal 8 1) Num.zero None false ]} [] [].

Definition credit_two_tenths : InsertTransaction :=
  mkInsertTransaction 7 (Num.decimal 2 1) "Tip" None None "credit".
Definition send_one_tenth : TransferData :=
  mkTransferData 8 7 (Num.decimal 1 1) "change".

(** ** Notions of the further properties *)

(** The ledger's ids are pairwise distinct and below the next serial id, as
    they are when every row came from [insert_transaction]. *)
Definition ledger_ok (s : Store) : Prop :=
  NoDup (tx_id <$> transactions s) ∧
  Forall (λ t, tx_id t < transactions_seq s) (transactions s).

(** The account [id] exists and belongs to [userId]. *)
Definition owns (userId id : Z) (s : Store) : Prop :=
  ∃ a, bankAccounts s !! id = Some a ∧ acc_userId a = userId.

(** Two rows of [bank_accounts] that differ at most in their balance. *)
Definition same_account (a a' : BankAccount) : Prop :=
  acc_userId a' = acc_userId a ∧ acc_name a' = acc_name a ∧
  accountNumber a' = accountNumber a ∧ acc_type a' = acc_type a.

(** The two accounts with a ledger of two rows. *)
Definition two_rows : Store :=
  mkStore (<[1 := account_A]> (<[2 := account_B]> ∅))
    [ mkTransaction 1 1 (Num.decimal 1250 2) "Groceries" (Some "Food")
        (Some "Corner shop") 900 "debit";
      mkTransaction 2 2 (Num.decimal 4000 2) "Refund" None None 950 "credit" ]
    3 ∅ [] [].

Definition ghost_transfer : TransferData := mkTransferData 1 9 (Num.decimal 3000 2) "rent".

(** Every id in use is below the sequence of its table, as it is when every
    row was inserted through the sequence. *)
Definition sequences_fresh (d : Database) : Prop :=
  (∀ id, is_Some (bankAccounts (store d) !! id) → id < bankAccounts_seq d) ∧
  (∀ id, is_Some (savingGoals (store d) !! id) → id < savingGoals_seq d) ∧
  Forall (λ e, je_id e < journalEntries_seq d) (journalEntries (store d)) ∧
  Forall (λ a, adv_id a < aiAdvices_seq d) (aiAdvices (store d)) ∧
  Forall (λ u, user_id u < users_seq d) (users d).

Definition bank : Database := mkDatabase two_accounts [] 1 3 1 1 1.

Definition new_savings : InsertBankAccount :=
  mkInsertBankAccount 1 "Rainy day" "ZA-0001-3333" None "savings".

Definition new_goal : InsertSavingGoal :=
  mkInsertSavingGoal 1 "Bicycle" (Num.decimal 25000 2) None.

Definition good_day : InsertJournalEntry := mkInsertJournalEntry 1 "Paid off the card" happy.

Definition asked : InsertAiAdvice :=
  mkInsertAiAdvice 1 "How do I save more?" "Set a fixed amount aside on payday.".

Definition thandi : InsertUser :=
  mkInsertUser "thandi" "$2b$10$hash" "Thandi Mokoena" "thandi@example.org".

Definition one_user : Database :=
  mkDatabase two_accounts [mkUser 1 "sipho" "$2b$10$hash" "Sipho Dube" "sipho@example.org"]
             2 3 1 1 1.

Definition not_a_number : TransferData := mkTransferData 1 2 S754_nan "rent".

Definition reached : SavingGoal :=
  mkSavingGoal 1 "Holiday" (Num.decimal 50000 2) (Num.decimal 50000 2) None true.

Definition no_target : SavingGoal :=
  mkSavingGoal 1 "Someday" Num.zero (Num.decimal 2500 2) None true.

Definition happy_then_1 : Store :=
  mkStore ∅ [] 1 ∅
    [ mkJournalEntry 1 1 "Counted the coins" "1" 100;
      mkJournalEntry 2 1 "Salary came in" happy 200 ] [].

Definition three_entries : Store :=
  mkStore ∅ [] 1 ∅
    [ mkJournalEntry 1 1 "Rent is due" sad 100;
      mkJournalEntry 2 1 "Salary came in" happy 200;
      mkJournalEntry 3 1 "Paid off the card" happy 300 ] [].

Ltac refused :=
  solve [ simpl; repeat split; try done; intros; try done; try congruence; auto ].

(** * Properties *)

(** ** Comparison of Numbers *)

Section Compare.

(** [b < a] is [Lt] as [a > b] is [Gt]: the two readings of one comparison
    agree. *)
Lemma SFcompare_antisym (a b : Number) :
  SFcompare b a = CompOpp <$> SFcompare a b.
Proof.
  destruct a as [sa|sa| |sa ma ea], b as [sb|sb| |sb mb eb];
    try destruct sa; try destruct sb; try reflexivity; simpl;
    rewrite (Z.compare_antisym ea eb);
    destruct (ea ?= eb); simpl; try reflexivity;
    rewrite (Pos.compare_cont_antisym ma mb Eq); simpl;
    try rewrite CompOpp_involutive; reflexivity.
Qed.

(** [a >= b] excludes [a < b]. *)
Lemma geb_not_ltb (a b : Number) : Num.geb a b = true → Num.ltb a b = false.
Proof.
  unfold Num.geb, Num.ltb, SFleb, SFltb.
  rewrite (SFcompare_antisym a b).
  destruct (SFcompare a b) as [[]|]; simpl; congruence.
Qed.

(** The sign of a zero does not show in a comparison. *)
Lemma SFcompare_stored_r (a b : Number) :
  SFcompare a (Num.stored b) = SFcompare a b.
Proof. destruct a as [?|?| |? ? ?], b as [?|?| |? ? ?]; reflexivity. Qed.

Lemma geb_stored_l (a b : Number) : Num.geb (Num.stored a) b = Num.geb a b.
Proof. unfold Num.geb, SFleb. now rewrite SFcompare_stored_r. Qed.

Lemma stored_idem (a : Number) : Num.stored (Num.stored a) = Num.stored a.
Proof. now destruct a. Qed.

End Compare.

(** ** Binary64 arithmetic

    The sum of two Numbers is the rounding of the sum of their values.  The
    lemmas below follow [SFadd] through its alignment, shift and rounding
    steps, to the two facts the goal updater relies on: a sum of valid
    Numbers is a valid Number, and adding a positive finite Number never
    gives less. *)

Section Binary64.

Lemma fexp_eq e : fexp Num.prec Num.emax e = Z.max (e - 53) (-1074).
Proof. reflexivity. Qed.

Lemma digits2_pos_bounds p :
  2 ^ (Zpos (digits2_pos p) - 1) ≤ Zpos p < 2 ^ Zpos (digits2_pos p).
Proof.
  induction p as [p IH|p IH|]; cbn [digits2_pos].
  - rewrite Pos2Z.inj_succ.
    replace (Z.succ (Zpos (digits2_pos p)) - 1) with (Z.succ (Zpos (digits2_pos p) - 1)) by lia.
    rewrite !Z.pow_succ_r by lia. lia.
  - rewrite Pos2Z.inj_succ.
    replace (Z.succ (Zpos (digits2_pos p)) - 1) with (Z.succ (Zpos (digits2_pos p) - 1)) by lia.
    rewrite !Z.pow_succ_r by lia. lia.
  - simpl. lia.
Qed.

Lemma digits2_pos_unique p n :
  2 ^ (n - 1) ≤ Zpos p < 2 ^ n → Zpos (digits2_pos p) = n.
Proof.
  intros [Hlo Hhi]. pose proof (digits2_pos_bounds p) as [Hlo' Hhi'].
  assert (0 < n).
  { destruct (Z.ltb_spec 0 n); [done|]. 
    destruct (Z.eqb_spec n 0) as [->|]; [simpl in Hhi; lia|].
    rewrite Z.pow_neg_r in Hhi by lia. lia. }
  destruct (Z.lt_trichotomy (Zpos (digits2_pos p)) n) as [Hlt|[?|Hgt]]; [|done|].
  - assert (2 ^ Zpos (digits2_pos p) ≤ 2 ^ (n - 1)) by (apply Z.pow_le_mono_r; lia). lia.
  - assert (2 ^ n ≤ 2 ^ (Zpos (digits2_pos p) - 1)) by (apply Z.pow_le_mono_r; lia). lia.
Qed.

Lemma digits2_pos_mul_pow2 p k :
  0 ≤ k → ∃ q, Zpos q = Zpos p * 2 ^ k ∧ Zpos (digits2_pos q) = Zpos (digits2_pos p) + k.
Proof.
  intros Hk. pose proof (digits2_pos_bounds p) as [Hlo Hhi].
  assert (0 < 2 ^ k) by (apply Z.pow_pos_nonneg; lia).
  assert (0 < Zpos p * 2 ^ k) as Hpos by lia.
  destruct (Zpos p * 2 ^ k) as [|q|q] eqn:E; try lia.
  exists q. split; [done|]. apply digits2_pos_unique.
  replace (Zpos (digits2_pos p) + k - 1) with ((Zpos (digits2_pos p) - 1) + k) by lia.
  rewrite !Z.pow_add_r by lia. nia.
Qed.

(** ** Shifting right *)

Lemma shr_1_m mrs : 0 ≤ shr_m mrs → shr_m (shr_1 mrs) = shr_m mrs / 2.
Proof.
  destruct mrs as [m r s]. cbn [shr_m]. intros Hm.
  destruct m as [|[p|p|]|p]; cbn [shr_1 shr_m]; try lia; try reflexivity.
  - rewrite Pos2Z.inj_xI. Z.div_mod_to_equations. lia.
  - rewrite Pos2Z.inj_xO. Z.div_mod_to_equations. lia.
Qed.

Lemma iter_pos_shr_m p : ∀ mrs,
  0 ≤ shr_m mrs → shr_m (iter_pos shr_1 p mrs) = shr_m mrs / 2 ^ Zpos p.
Proof.
  induction p as [p IH|p IH|]; intros mrs Hm; cbn [iter_pos].
  - assert (0 ≤ shr_m (shr_1 mrs)) as H1.
    { rewrite shr_1_m by done. apply Z.div_pos; lia. }
    assert (0 ≤ shr_m (iter_pos shr_1 p (shr_1 mrs))) as H2.
    { rewrite IH by done. apply Z.div_pos; [done|]. apply Z.pow_pos_nonneg; lia. }
    rewrite IH, IH, shr_1_m by done.
    rewrite !Z.div_div by (try apply Z.pow_pos_nonneg; lia).
    f_equal. replace (Zpos p~1) with (1 + Zpos p + Zpos p) by lia.
    rewrite !Z.pow_add_r by lia. change (2 ^ 1) with 2. lia.
  - assert (0 ≤ shr_m (iter_pos shr_1 p mrs)) as H2.
    { rewrite IH by done. apply Z.div_pos; [done|]. apply Z.pow_pos_nonneg; lia. }
    rewrite IH, IH by done.
    rewrite !Z.div_div by (try apply Z.pow_pos_nonneg; lia).
    f_equal. replace (Zpos p~0) with (Zpos p + Zpos p) by lia.
    rewrite !Z.pow_add_r by lia. lia.
  - rewrite shr_1_m by done. reflexivity.
Qed.

(** [shr_fexp] on an exact positive mantissa: the mantissa is divided by
    the power of two that brings the exponent up to the one of the
    format. *)
Lemma shr_fexp_exact m e :
  let n := fexp Num.prec Num.emax (Zpos (digits2_pos m) + e) - e in
  shr_fexp Num.prec Num.emax (Zpos m) e loc_Exact =
    if 0 <? n
    then (fst (shr_fexp Num.prec Num.emax (Zpos m) e loc_Exact), e + n)
    else (Build_shr_record (Zpos m) false false, e).
Proof.
  intros n. unfold shr_fexp, shr. cbn [Zdigits2]. fold n.
  destruct n as [|p|p]; reflexivity.
Qed.

Lemma shr_fexp_m m e :
  let n := fexp Num.prec Num.emax (Zpos (digits2_pos m) + e) - e in
  0 < n →
  shr_m (fst (shr_fexp Num.prec Num.emax (Zpos m) e loc_Exact)) = Zpos m / 2 ^ n.
Proof.
  intros n Hn. unfold shr_fexp, shr. cbn [Zdigits2]. fold n.
  destruct n as [|p|p]; try lia. cbn [fst].
  now rewrite iter_pos_shr_m.
Qed.

Lemma shl_align_spec mx ex ex' :
  let '(mz, ez) := shl_align mx ex ex' in
  ez = Z.min ex ex' ∧ Zpos mz = Zpos mx * 2 ^ (ex - ez).
Proof.
  unfold shl_align. destruct (ex' - ex) as [|d|d] eqn:E.
  - split; [lia|]. replace (ex - ex) with 0 by lia. simpl. lia.
  - split; [lia|]. replace (ex - ex) with 0 by lia. simpl. lia.
  - split; [lia|]. replace (ex - ex') with (Zpos d) by lia.
    clear E. induction d as [|d IH] using Pos.peano_ind.
    + simpl. lia.
    + rewrite Pos.iter_succ, Pos2Z.inj_succ, Z.pow_succ_r by lia.
      change (Zpos (Pos.iter xO mx d)~0) with (2 * Zpos (Pos.iter xO mx d)). lia.
Qed.

Lemma round_nearest_even_bounds m l :
  m ≤ round_nearest_even m l ≤ m + 1.
Proof. destruct l as [|[]]; simpl; try lia. destruct (Z.even m); lia. Qed.

Lemma pow2_pos k : 0 ≤ k → 0 < 2 ^ k.
Proof. intros. apply Z.pow_pos_nonneg; lia. Qed.

(** What [bounded] says of a mantissa and an exponent. *)
Lemma bounded_spec m e :
  bounded Num.prec Num.emax m e = true ↔
  (-1074 ≤ e ≤ 971 ∧ Zpos m < 2 ^ 53 ∧ (e = -1074 ∨ 2 ^ 52 ≤ Zpos m)).
Proof.
  unfold bounded, canonical_mantissa. rewrite andb_true_iff, Z.eqb_eq, Z.leb_le, fexp_eq.
  change (Num.emax - Num.prec) with 971.
  pose proof (digits2_pos_bounds m) as [Hlo Hhi].
  split.
  - intros [Hc He].
    assert (Zpos (digits2_pos m) ≤ 53) as Hd by lia.
    assert (2 ^ Zpos (digits2_pos m) ≤ 2 ^ 53) by (apply Z.pow_le_mono_r; lia).
    repeat split; try lia.
    destruct (Z.eq_dec e (-1074)); [now left|right].
    assert (Zpos (digits2_pos m) = 53) as Hd' by lia.
    rewrite Hd' in Hlo. exact Hlo.
  - intros ([He1 He2] & Hm & Hn). split; [|lia].
    assert (Zpos (digits2_pos m) ≤ 53) as Hd.
    { destruct (Z.le_gt_cases (Zpos (digits2_pos m)) 53); [done|].
      assert (2 ^ 53 ≤ 2 ^ (Zpos (digits2_pos m) - 1)) by (apply Z.pow_le_mono_r; lia).
      lia. }
    destruct Hn as [->|Hn]; [lia|].
    assert (53 ≤ Zpos (digits2_pos m)); [|lia].
    destruct (Z.le_gt_cases 53 (Zpos (digits2_pos m))); [done|].
    assert (2 ^ Zpos (digits2_pos m) ≤ 2 ^ 52) by (apply Z.pow_le_mono_r; lia).
    lia.
Qed.

(** The outcome of rounding an aligned positive mantissa: the value kept
    is one of the two multiples of [2^k] around the exact value, [k] being
    the exponent of the format for that value. *)
Lemma binary_round_aux_spec sx mz ez :
  -1074 ≤ ez →
  ez ≤ fexp Num.prec Num.emax (Zpos (digits2_pos mz) + ez) →
  let k := fexp Num.prec Num.emax (Zpos (digits2_pos mz) + ez) + 1074 in
  let N := Zpos mz * 2 ^ (ez + 1074) in
  ∃ m2,
    N / 2 ^ k ≤ m2 ≤ N / 2 ^ k + 1 ∧ 0 < m2 ∧
    ((binary_round_aux Num.prec Num.emax sx (Zpos mz) ez loc_Exact = S754_infinity sx ∧
      2 ^ 2098 ≤ m2 * 2 ^ k) ∨
     (∃ m3 e3,
        binary_round_aux Num.prec Num.emax sx (Zpos mz) ez loc_Exact = S754_finite sx m3 e3 ∧
        bounded Num.prec Num.emax m3 e3 = true ∧
        Zpos m3 * 2 ^ (e3 + 1074) = m2 * 2 ^ k)).
Proof.
  intros Hez Hle k N.
  set (e1 := fexp Num.prec Num.emax (Zpos (digits2_pos mz) + ez)) in *.
  set (n := e1 - ez).
  assert (0 ≤ n) as Hn by lia.
  assert (e1 = Z.max (Zpos (digits2_pos mz) + ez - 53) (-1074)) as He1 by apply fexp_eq.
  pose proof (digits2_pos_bounds mz) as [Hlo Hhi].
  pose proof (pow2_pos n Hn) as Hpn.
  pose proof (pow2_pos (ez + 1074) ltac:(lia)) as Hpe.
  assert (2 ^ k = 2 ^ n * 2 ^ (ez + 1074)) as Hk.
  { unfold k, n. rewrite <- Z.pow_add_r by lia. f_equal. lia. }
  assert (N / 2 ^ k = Zpos mz / 2 ^ n) as HN.
  { unfold N. rewrite Hk. apply Z.div_mul_cancel_r; lia. }
  rewrite HN. clear HN.
  unfold binary_round_aux.
  destruct (shr_fexp Num.prec Num.emax (Zpos mz) ez loc_Exact) as [mrs' e'] eqn:E1.
  pose proof (shr_fexp_exact mz ez) as Hx. cbn zeta in Hx. rewrite E1 in Hx.
  pose proof (shr_fexp_m mz ez) as Hm. cbn zeta in Hm. rewrite E1 in Hm.
  fold e1 in Hx, Hm. fold n in Hx, Hm. cbn [fst] in Hx, Hm.
  set (m1 := Zpos mz / 2 ^ n).
  set (m2 := round_nearest_even (shr_m mrs') (loc_of_shr_record mrs')).
  assert (e' = e1 ∧ shr_m mrs' = m1 ∧ (n = 0 → m2 = m1)) as (-> & Hm1 & Hexact).
  { destruct (Z.ltb_spec 0 n) as [Hpos|Hnp].
    - inversion Hx; subst e'. repeat split; [lia| now apply Hm | lia].
    - inversion Hx; subst. assert (n = 0) as Hn0 by lia.
      repeat split; [lia| |].
      + unfold m1. rewrite Hn0. simpl. now rewrite Z.div_1_r.
      + intros _. unfold m2, m1. rewrite Hn0. simpl. now rewrite Z.div_1_r. }
  pose proof (round_nearest_even_bounds (shr_m mrs') (loc_of_shr_record mrs')) as Hr.
  fold m2 in Hr. rewrite Hm1 in Hr.
  (* the digits of the mantissa before rounding *)
  assert ((n = 0 ∧ m1 = Zpos mz ∧ (e1 = -1074 ∨ 2 ^ 52 ≤ m1) ∧ m1 < 2 ^ 53) ∨
          (0 < n ∧ 2 ^ 52 ≤ m1 < 2 ^ 53 ∧ -1074 < e1)) as Hcases.
  { destruct (Z.eq_dec n 0) as [Hn0|Hn0].
    - left. assert (m1 = Zpos mz) as Hmz.
      { unfold m1. rewrite Hn0. simpl. now rewrite Z.div_1_r. }
      repeat split; [done|done| |].
      + destruct (Z.eq_dec e1 (-1074)); [now left|right].
        assert (Zpos (digits2_pos mz) = 53) as Hd by lia.
        rewrite Hmz. rewrite Hd in Hlo. exact Hlo.
      + rewrite Hmz.
        assert (2 ^ Zpos (digits2_pos mz) ≤ 2 ^ 53) by (apply Z.pow_le_mono_r; lia). lia.
    - right. assert (Zpos (digits2_pos mz) = 53 + n) as Hd by lia.
      rewrite Hd in Hlo, Hhi.
      replace (53 + n - 1) with (n + 52) in Hlo by lia.
      rewrite Z.pow_add_r in Hlo, Hhi by lia.
      repeat split; [lia| | |lia].
      + apply Z.div_le_lower_bound; lia.
      + apply Z.div_lt_upper_bound; lia. }
  exists m2. split; [done|]. split; [destruct Hcases as [(?&?&?&?)|(?&?&?)]; lia|].
  assert (0 < m2) as Hm2pos by (destruct Hcases as [(?&?&?&?)|(?&?&?)]; lia).
  destruct m2 as [|m2p|m2p] eqn:Em2; try lia.
  destruct (shr_fexp Num.prec Num.emax (Zpos m2p) e1 loc_Exact) as [mrs'' e''] eqn:E2.
  pose proof (shr_fexp_exact m2p e1) as Hx2. cbn zeta in Hx2. rewrite E2 in Hx2.
  pose proof (shr_fexp_m m2p e1) as Hm2. cbn zeta in Hm2. rewrite E2 in Hm2.
  cbn [fst] in Hx2, Hm2. rewrite fexp_eq in Hx2, Hm2.
  pose proof (pow2_pos k ltac:(lia)) as Hpk.
  (* the rounded mantissa either fits or is [2^53] *)
  assert (Zpos m2p < 2 ^ 53 ∧ (e1 = -1074 ∨ 2 ^ 52 ≤ Zpos m2p) ∨
          Zpos m2p = 2 ^ 53 ∧ -1074 < e1) as [[Hfit Hnorm]|[Hcarry He1']].
  { destruct Hcases as [(Hn0&?&?&?)|(?&?&?)].
    - left. rewrite (Hexact Hn0). split; [lia|]. tauto.
    - destruct (Z.eq_dec (Zpos m2p) (2 ^ 53)); [right; split; [done|lia]|left].
      split; [lia|right; lia]. }
  - (* no carry: the second shift does nothing *)
    assert (bounded Num.prec Num.emax m2p e1 = true ∨ 971 < e1) as Hb.
    { destruct (Z.le_gt_cases e1 971); [left|right; lia].
      apply bounded_spec. repeat split; lia. }
    assert (Z.max (Zpos (digits2_pos m2p) + e1 - 53) (-1074) - e1 = 0) as Hn2.
    { pose proof (digits2_pos_bounds m2p) as [Hlo2 Hhi2].
      assert (Zpos (digits2_pos m2p) ≤ 53) as Hd.
      { destruct (Z.le_gt_cases (Zpos (digits2_pos m2p)) 53); [done|].
        assert (2 ^ 53 ≤ 2 ^ (Zpos (digits2_pos m2p) - 1)) by (apply Z.pow_le_mono_r; lia).
        lia. }
      destruct Hnorm as [->|Hnorm]; [lia|].
      assert (53 ≤ Zpos (digits2_pos m2p)); [|lia].
      destruct (Z.le_gt_cases 53 (Zpos (digits2_pos m2p))); [done|].
      assert (2 ^ Zpos (digits2_pos m2p) ≤ 2 ^ 52) by (apply Z.pow_le_mono_r; lia).
      lia. }
    rewrite Hn2 in Hx2. simpl in Hx2. inversion Hx2; subst mrs'' e''. cbn [shr_m].
    change (Num.emax - Num.prec) with 971.
    destruct Hb as [Hb|Hover].
    + right. exists m2p, e1. apply bounded_spec in Hb as Hb'.
      rewrite (proj2 (Z.leb_le e1 971)) by lia. repeat split; done.
    + left. rewrite (proj2 (Z.leb_gt e1 971)) by lia. split; [done|].
      assert (2 ^ 52 ≤ Zpos m2p) by (destruct Hnorm; lia).
      assert (2 ^ 2046 ≤ 2 ^ k) by (apply Z.pow_le_mono_r; lia).
      change (2 ^ 2098) with (2 ^ 52 * 2 ^ 2046). nia.
  - (* carry: the mantissa [2^53] is halved *)
    assert (Zpos (digits2_pos m2p) = 54) as Hd by (apply digits2_pos_unique; rewrite Hcarry; simpl; lia).
    rewrite Hd in Hx2, Hm2.
    replace (Z.max (54 + e1 - 53) (-1074) - e1) with 1 in Hx2, Hm2 by lia.
    change (0 <? 1) with true in Hx2. cbn iota in Hx2.
    assert (e'' = e1 + 1) as -> by congruence.
    rewrite Hm2 by lia. rewrite Hcarry. change (2 ^ 53 / 2 ^ 1) with (Zpos (2 ^ 52)%positive).
    change (Num.emax - Num.prec) with 971.
    assert (2 ^ (e1 + 1 + 1074) = 2 * 2 ^ k) as Hk1.
    { unfold k. replace (e1 + 1 + 1074) with (Z.succ (e1 + 1074)) by lia.
      rewrite Z.pow_succ_r by lia. done. }
    destruct (Z.leb_spec (e1 + 1) 971) as [Hfin|Hover].
    + right. exists (2 ^ 52)%positive, (e1 + 1). repeat split.
      * apply bounded_spec. repeat split; lia.
      * rewrite Hk1. change (Zpos (2 ^ 52)%positive) with (2 ^ 52).
        change (2 ^ 53) with (2 * 2 ^ 52). lia.
    + left. split; [done|].
      assert (2 ^ 2045 ≤ 2 ^ k) by (apply Z.pow_le_mono_r; lia).
      change (2 ^ 2098) with (2 ^ 53 * 2 ^ 2045). nia.
Qed.

(** ** Values *)

Lemma digits2_pos_log2 p : Zpos (digits2_pos p) = Z.log2 (Zpos p) + 1.
Proof.
  pose proof (digits2_pos_bounds p) as [Hlo Hhi].
  assert (Z.log2 (Zpos p) = Zpos (digits2_pos p) - 1); [|lia].
  apply Z.log2_unique; [lia|].
  replace (Z.succ (Zpos (digits2_pos p) - 1)) with (Zpos (digits2_pos p)) by lia.
  now split.
Qed.

Lemma grid_pos T : 0 < grid T.
Proof. apply pow2_pos. lia. Qed.

Lemma grid_scaled m e :
  -1074 ≤ e →
  grid (Zpos m * 2 ^ (e + 1074)) = 2 ^ (fexp Num.prec Num.emax (Zpos (digits2_pos m) + e) + 1074).
Proof.
  intros He. unfold grid. rewrite Z.log2_mul_pow2 by lia.
  rewrite fexp_eq, digits2_pos_log2. f_equal. lia.
Qed.

(** A Number is a multiple of the spacing at its own value. *)
Lemma grid_bounded m e :
  bounded Num.prec Num.emax m e = true →
  grid (Zpos m * 2 ^ (e + 1074)) = 2 ^ (e + 1074).
Proof.
  intros Hb. apply bounded_spec in Hb as Hb'. rewrite grid_scaled by lia.
  unfold bounded, canonical_mantissa in Hb.
  apply andb_true_iff in Hb as [Hc _]. apply Z.eqb_eq in Hc. now rewrite Hc.
Qed.

Lemma grid_mono T1 T2 :
  0 < T1 ≤ T2 → ∃ j, 0 ≤ j ∧ grid T2 = 2 ^ j * grid T1.
Proof.
  intros [H1 H2]. pose proof (Z.log2_le_mono T1 T2 H2) as Hl.
  exists (Z.max (Z.log2 T2 - 52) 0 - Z.max (Z.log2 T1 - 52) 0). split; [lia|].
  unfold grid. rewrite <- Z.pow_add_r by lia. f_equal. lia.
Qed.

(** Rounding a value that is at least a Number gives at least that
    Number. *)
Lemma grid_lower m e T :
  bounded Num.prec Num.emax m e = true →
  Zpos m * 2 ^ (e + 1074) ≤ T →
  Zpos m * 2 ^ (e + 1074) ≤ T / grid T * grid T.
Proof.
  intros Hb HT. pose proof (grid_bounded m e Hb) as HgX.
  apply bounded_spec in Hb as (He & Hm & Hn).
  set (X := Zpos m * 2 ^ (e + 1074)) in *.
  pose proof (pow2_pos (e + 1074) ltac:(lia)) as Hpe.
  assert (0 < X) as HX by (unfold X; lia).
  destruct (grid_mono X T ltac:(lia)) as (j & Hj & Hg).
  pose proof (grid_pos T) as HgT. pose proof (grid_pos X) as HgX'.
  destruct (Z.eq_dec j 0) as [->|Hj0].
  - change (2 ^ 0) with 1 in Hg. rewrite Z.mul_1_l in Hg. rewrite Hg, HgX.
    unfold X. apply Z.mul_le_mono_nonneg_r; [lia|].
    apply Z.div_le_lower_bound; [lia|]. fold X. lia.
  - (* the spacing at [T] is coarser: [T] lies in a higher binade *)
    assert (Z.max (Z.log2 T - 52) 0 = j + Z.max (Z.log2 X - 52) 0) as Hk.
    { unfold grid in Hg. rewrite <- Z.pow_add_r in Hg by lia.
      apply Z.pow_inj_r in Hg; lia. }
    assert (0 < T) as HT0 by lia.
    pose proof (Z.log2_spec T HT0) as [HlT _].
    pose proof (Z.log2_spec X HX) as [_ HlX].
    assert (2 ^ Z.log2 T = 2 ^ 52 * grid T) as HlT'.
    { unfold grid. rewrite <- Z.pow_add_r by lia. f_equal. lia. }
    assert (2 ^ 52 ≤ T / grid T).
    { apply Z.div_le_lower_bound; lia. }
    assert (2 ^ Z.succ (Z.log2 X) ≤ 2 ^ Z.log2 T) by (apply Z.pow_le_mono_r; lia).
    nia.
Qed.

(** Rounding a value that is less than a Number gives at most that
    Number. *)
Lemma grid_upper m e T :
  bounded Num.prec Num.emax m e = true →
  0 < T < Zpos m * 2 ^ (e + 1074) →
  (T / grid T + 1) * grid T ≤ Zpos m * 2 ^ (e + 1074).
Proof.
  intros Hb [HT0 HT]. pose proof (grid_bounded m e Hb) as HgX.
  apply bounded_spec in Hb as (He & Hm & Hn).
  set (X := Zpos m * 2 ^ (e + 1074)) in *.
  destruct (grid_mono T X ltac:(lia)) as (j & Hj & Hg).
  pose proof (grid_pos T) as HgT.
  pose proof (pow2_pos j Hj) as Hpj.
  assert (X = Zpos m * 2 ^ j * grid T) as HXc.
  { unfold X at 1. rewrite <- HgX, Hg. lia. }
  assert (T / grid T < Zpos m * 2 ^ j).
  { apply Z.div_lt_upper_bound; lia. }
  rewrite HXc. apply Z.mul_le_mono_nonneg_r; lia.
Qed.

(** Between two Numbers, exponents and mantissas order as the values
    do. *)
Lemma bounded_exp_lt m1 e1 m2 e2 :
  bounded Num.prec Num.emax m1 e1 = true →
  bounded Num.prec Num.emax m2 e2 = true →
  e1 < e2 →
  Zpos m1 * 2 ^ (e1 + 1074) < Zpos m2 * 2 ^ (e2 + 1074).
Proof.
  intros (He1 & Hm1 & Hn1)%bounded_spec (He2 & Hm2 & Hn2)%bounded_spec Hlt.
  replace (e2 + 1074) with ((e2 - e1) + (e1 + 1074)) by lia.
  rewrite (Z.pow_add_r 2 (e2 - e1) (e1 + 1074)) by lia.
  pose proof (pow2_pos (e1 + 1074) ltac:(lia)).
  assert (2 ^ 1 ≤ 2 ^ (e2 - e1)) by (apply Z.pow_le_mono_r; lia).
  change (2 ^ 1) with 2 in *.
  assert (2 ^ 52 ≤ Zpos m2) by lia.
  assert (Zpos m1 < Zpos m2 * 2 ^ (e2 - e1)) by nia.
  nia.
Qed.

Lemma compare_bounded m1 e1 m2 e2 :
  bounded Num.prec Num.emax m1 e1 = true →
  bounded Num.prec Num.emax m2 e2 = true →
  match e1 ?= e2 with
  | Lt => Lt
  | Gt => Gt
  | Eq => Pos.compare_cont Eq m1 m2
  end = (Zpos m1 * 2 ^ (e1 + 1074) ?= Zpos m2 * 2 ^ (e2 + 1074)).
Proof.
  intros H1 H2. destruct (Z.compare_spec e1 e2) as [->|Hlt|Hgt].
  - apply bounded_spec in H2 as (He & _).
    pose proof (pow2_pos (e2 + 1074) ltac:(lia)).
    change (Pos.compare_cont Eq m1 m2) with (Zpos m1 ?= Zpos m2).
    destruct (Z.compare_spec (Zpos m1) (Zpos m2)); symmetry;
      [apply Z.compare_eq_iff | apply Z.compare_lt_iff | apply Z.compare_gt_iff]; nia.
  - symmetry. apply Z.compare_lt_iff. now apply bounded_exp_lt.
  - symmetry. apply Z.compare_gt_iff. now apply bounded_exp_lt.
Qed.

(** On valid finite Numbers [SFcompare] compares the values. *)
Lemma SFcompare_scaled x y :
  Num.valid x = true → Num.valid y = true →
  finite_or_zero x → finite_or_zero y →
  SFcompare x y = Some (scaled x ?= scaled y).
Proof.
  destruct x as [sx|sx| |sx mx ex], y as [sy|sy| |sy my ey]; try done;
    unfold Num.valid; cbn [valid_binary scaled SFcompare]; intros Hx Hy _ _.
  - apply bounded_spec in Hy as Hy'.
    pose proof (pow2_pos (ey + 1074) ltac:(lia)).
    destruct sy; cbn [cond_Zopp]; f_equal; symmetry;
      [apply Z.compare_gt_iff | apply Z.compare_lt_iff]; lia.
  - apply bounded_spec in Hx as Hx'.
    pose proof (pow2_pos (ex + 1074) ltac:(lia)).
    destruct sx; cbn [cond_Zopp]; f_equal; symmetry;
      [apply Z.compare_lt_iff | apply Z.compare_gt_iff]; lia.
  - apply bounded_spec in Hx as Hx'. apply bounded_spec in Hy as Hy'.
    pose proof (pow2_pos (ex + 1074) ltac:(lia)).
    pose proof (pow2_pos (ey + 1074) ltac:(lia)).
    pose proof (compare_bounded mx ex my ey Hx Hy) as Hc.
    destruct sx, sy; cbn [cond_Zopp]; f_equal.
    + rewrite Z.compare_opp, <- (compare_bounded my ey mx ex Hy Hx).
      rewrite (Z.compare_antisym ex ey).
      destruct (ex ?= ey); simpl; try reflexivity.
      apply (Pos.compare_cont_antisym mx my Eq).
    + symmetry. apply Z.compare_lt_iff. lia.
    + symmetry. apply Z.compare_gt_iff. lia.
    + exact Hc.
Qed.

(** ** Rounding *)

Lemma binary_round_rounds sx M e :
  -1074 ≤ e →
  rounds_to sx (Zpos M * 2 ^ (e + 1074)) (binary_round Num.prec Num.emax sx M e).
Proof.
  intros He. unfold binary_round.
  pose proof (shl_align_spec M e (fexp Num.prec Num.emax (Zpos (digits2_pos M) + e))) as Ha.
  destruct (shl_align M e (fexp Num.prec Num.emax (Zpos (digits2_pos M) + e)))
    as [mz ez].
  destruct Ha as [Hez Hmz].
  assert (-1074 ≤ ez) as Hez' by (rewrite fexp_eq in Hez; lia).
  assert (Zpos (digits2_pos mz) + ez = Zpos (digits2_pos M) + e) as Hd.
  { destruct (digits2_pos_mul_pow2 M (e - ez) ltac:(lia)) as (q & Hq & Hdq).
    assert (q = mz) as -> by lia. lia. }
  assert (Zpos mz * 2 ^ (ez + 1074) = Zpos M * 2 ^ (e + 1074)) as HN.
  { rewrite Hmz, <- Z.mul_assoc, <- Z.pow_add_r by lia. do 2 f_equal. lia. }
  destruct (binary_round_aux_spec sx mz ez Hez') as (m2 & Hm2 & Hpos & Hres).
  { rewrite Hd. lia. }
  rewrite <- grid_scaled in Hm2, Hres by done.
  rewrite HN in Hm2, Hres.
  set (T := Zpos M * 2 ^ (e + 1074)) in *.
  pose proof (grid_pos T).
  exists (m2 * grid T). split; [nia|exact Hres].
Qed.

Lemma cond_Zopp_mul s a c : cond_Zopp s a * c = cond_Zopp s (a * c).
Proof. destruct s; simpl; lia. Qed.

(** The sum of two valid finite Numbers is the rounding of the sum of
    their values. *)
Lemma SFadd_finite sx mx ex sy my ey :
  bounded Num.prec Num.emax mx ex = true →
  bounded Num.prec Num.emax my ey = true →
  let x := S754_finite sx mx ex in
  let y := S754_finite sy my ey in
  let T := scaled x + scaled y in
  (T = 0 ∧ Num.add x y = S754_zero false) ∨
  (0 < T ∧ rounds_to false T (Num.add x y)) ∨
  (T < 0 ∧ rounds_to true (- T) (Num.add x y)).
Proof.
  intros (Hex & _)%bounded_spec (Hey & _)%bounded_spec x y T.
  unfold Num.add, x, y. cbn [SFadd].
  set (ez := Z.min ex ey).
  pose proof (shl_align_spec mx ex ez) as Hax.
  pose proof (shl_align_spec my ey ez) as Hay.
  destruct (shl_align mx ex ez) as [ax ex'], (shl_align my ey ez) as [ay ey'].
  cbn [fst]. destruct Hax as [Hex' Hax], Hay as [Hey' Hay].
  replace ex' with ez in Hax by lia. replace ey' with ez in Hay by lia.
  set (S := cond_Zopp sx (Zpos ax) + cond_Zopp sy (Zpos ay)).
  pose proof (pow2_pos (ez + 1074) ltac:(lia)) as Hp.
  assert (S * 2 ^ (ez + 1074) = T) as HS.
  { unfold S, T, x, y. cbn [scaled].
    rewrite Z.mul_add_distr_r, !cond_Zopp_mul, Hax, Hay.
    rewrite <- !Z.mul_assoc, <- !Z.pow_add_r by lia.
    replace (ex - ez + (ez + 1074)) with (ex + 1074) by lia.
    replace (ey - ez + (ez + 1074)) with (ey + 1074) by lia. done. }
  destruct S as [|M|M]; cbn [binary_normalize].
  - left. split; [lia|done].
  - right. left. split; [lia|]. rewrite <- HS. apply binary_round_rounds. lia.
  - right. right. split; [lia|]. rewrite <- HS.
    replace (- (Zneg M * 2 ^ (ez + 1074))) with (Zpos M * 2 ^ (ez + 1074)) by lia.
    apply binary_round_rounds. lia.
Qed.

(** ** Order *)

Lemma huge_eq : huge = 2 ^ 53 * 2 ^ 2045.
Proof. reflexivity. Qed.

Lemma bounded_lt_huge m e :
  bounded Num.prec Num.emax m e = true → 0 < Zpos m * 2 ^ (e + 1074) < huge.
Proof.
  intros (He & Hm & _)%bounded_spec.
  pose proof (pow2_pos (e + 1074) ltac:(lia)).
  assert (2 ^ (e + 1074) ≤ 2 ^ 2045) by (apply Z.pow_le_mono_r; lia).
  rewrite huge_eq. nia.
Qed.

Lemma SFcompare_rank x y :
  Num.valid x = true → Num.valid y = true →
  x ≠ S754_nan → y ≠ S754_nan →
  SFcompare x y = Some (rank x ?= rank y).
Proof.
  intros Hx Hy Hnx Hny.
  assert (0 < huge) as Hh by (unfold huge; apply pow2_pos; lia).
  assert (finite_or_zero x ∨ ∃ s, x = S754_infinity s) as [Hfx|[sx ->]]
    by (destruct x; simpl; eauto; done).
  - assert (finite_or_zero y ∨ ∃ s, y = S754_infinity s) as [Hfy|[sy ->]]
      by (destruct y; simpl; eauto; done).
    + rewrite SFcompare_scaled by done. now destruct x, y.
    + destruct x as [sx|sx| |sx mx ex]; try done.
      * destruct sy; compare_cases.
      * pose proof (bounded_lt_huge mx ex Hx). destruct sx, sy; compare_cases.
  - destruct y as [sy|sy| |sy my ey]; try done.
    + destruct sx; compare_cases.
    + destruct sx, sy; compare_cases.
    + pose proof (bounded_lt_huge my ey Hy). destruct sx, sy; compare_cases.
Qed.

Lemma geb_rank x y :
  Num.valid x = true → Num.valid y = true →
  Num.geb x y = true ↔ (x ≠ S754_nan ∧ y ≠ S754_nan ∧ rank y ≤ rank x).
Proof.
  intros Hx Hy. unfold Num.geb, SFleb.
  assert (x = S754_nan ∨ x ≠ S754_nan) as [->|Hnx]
    by (destruct x; auto; right; discriminate).
  { destruct y; simpl; split; try done; tauto. }
  assert (y = S754_nan ∨ y ≠ S754_nan) as [->|Hny]
    by (destruct y; auto; right; discriminate).
  { simpl; split; try done; tauto. }
  rewrite SFcompare_rank by done.
  destruct (Z.compare_spec (rank y) (rank x)) as [He|Hl|Hg]; split; intros H;
    try done; try (repeat split; try done; lia).
Qed.

(** ** Sums *)

Lemma rounds_to_valid s T r : rounds_to s T r → Num.valid r = true ∧ r ≠ S754_nan.
Proof.
  intros (V & _ & [[-> _]|(m & e & -> & Hb & _)]); split; done.
Qed.

(** The sum of two valid Numbers is a valid Number. *)
Lemma add_valid x y :
  Num.valid x = true → Num.valid y = true → Num.valid (Num.add x y) = true.
Proof.
  destruct x as [sx|sx| |sx mx ex], y as [sy|sy| |sy my ey];
    try (intros; reflexivity); try (intros; assumption);
    try (destruct sx, sy; intros; reflexivity).
  intros Hx Hy.
  destruct (SFadd_finite sx mx ex sy my ey Hx Hy) as [[_ ->]|[[_ Hr]|[_ Hr]]];
    [done| |]; now apply rounds_to_valid in Hr.
Qed.

Lemma stored_valid x : Num.valid x = true → Num.valid (Num.stored x) = true.
Proof. now destruct x. Qed.

(** Adding a positive finite Number never gives less. *)
Lemma add_positive_ge x m e :
  Num.valid x = true → x ≠ S754_nan →
  bounded Num.prec Num.emax m e = true →
  Num.geb (Num.add x (S754_finite false m e)) x = true.
Proof.
  intros Hx Hnx Ha.
  pose proof (bounded_lt_huge m e Ha) as HA.
  destruct x as [sx|sx| |sx mx ex]; try done.
  - now destruct sx.
  - pose proof (bounded_lt_huge mx ex Hx) as HX.
    pose proof (SFadd_finite sx mx ex false m e Hx Ha) as Hsum.
    cbn zeta in Hsum. cbn [scaled] in Hsum.
    set (X := Zpos mx * 2 ^ (ex + 1074)) in *.
    set (A := Zpos m * 2 ^ (e + 1074)) in *.
    destruct sx; cbn [cond_Zopp] in Hsum;
      destruct Hsum as [[HT Hr]|[[HT Hr]|[HT Hr]]]; try lia.
    + now rewrite Hr.
    + apply geb_rank; [now apply rounds_to_valid in Hr | done |].
      split; [now apply rounds_to_valid in Hr|]. split; [done|].
      destruct Hr as (V & [Hlo Hhi] & [[-> Hh]|(m3 & e3 & -> & Hb & HV)]);
        cbn [rank scaled cond_Zopp]; fold X; [lia|].
      pose proof (bounded_lt_huge m3 e3 Hb). lia.
    + pose proof (grid_upper mx ex (- (- X + A)) Hx ltac:(fold X; lia)) as Hup.
      fold X in Hup.
      apply geb_rank; [now apply rounds_to_valid in Hr | done |].
      split; [now apply rounds_to_valid in Hr|]. split; [done|].
      destruct Hr as (V & [Hlo Hhi] & [[-> Hh]|(m3 & e3 & -> & Hb & HV)]);
        cbn [rank scaled cond_Zopp]; fold X; lia.
    + pose proof (grid_lower mx ex (X + A) Hx ltac:(fold X; lia)) as Hlow.
      fold X in Hlow.
      apply geb_rank; [now apply rounds_to_valid in Hr | done |].
      split; [now apply rounds_to_valid in Hr|]. split; [done|].
      destruct Hr as (V & [Hlo Hhi] & [[-> Hh]|(m3 & e3 & -> & Hb & HV)]);
        cbn [rank scaled cond_Zopp]; fold X; lia.
Qed.

(** [>=] is transitive on valid Numbers. *)
Lemma geb_trans x y z :
  Num.valid x = true → Num.valid y = true → Num.valid z = true →
  Num.geb x y = true → Num.geb y z = true → Num.geb x z = true.
Proof.
  intros Hx Hy Hz (? & ? & ?)%geb_rank (? & ? & ?)%geb_rank; try done.
  apply geb_rank; try done. repeat split; try done. lia.
Qed.

End Binary64.

(** ** Steps of a database transaction *)

Lemma lookup_set_balance (m : gmap Z BankAccount) id a b :
  m !! id = Some a →
  alter (set_balance b) id m !! id = Some (set_balance b a).
Proof. intros H. rewrite lookup_alter_eq, H. reflexivity. Qed.

(** ** Transfers *)

(** A transfer that passes both checks commits the two rows and the two
    balance writes, the write to the target last. *)
Lemma transferFunds_commits now td s src tgt :
  bankAccounts s !! fromAccountId td = Some src →
  bankAccounts s !! toAccountId td = Some tgt →
  Num.ltb (balance src) (amount td) = false →
  transferFunds now td s =
    (Returned (debit_row now td s, credit_row now td src s),
     mkStore
       (alter (set_balance (Num.add (balance tgt) (amount td))) (toAccountId td)
          (alter (set_balance (Num.sub (balance src) (amount td))) (fromAccountId td)
             (bankAccounts s)))
       ((transactions s ++ [debit_row now td s]) ++ [credit_row now td src s])
       (transactions_seq s + 1 + 1)
       (savingGoals s) (journalEntries s) (aiAdvices s)).
Proof.
  intros Hsrc Htgt Hlt.
  unfold transferFunds, transaction, transferFunds_body, bind, select_account.
  rewrite Hsrc, Htgt, Hlt. reflexivity.
Qed.

(** A transfer between two distinct existing accounts whose source balance
    is at least the amount returns; the balances written are the binary64
    difference and sum the code computes, and the ledger has gained exactly
    two rows, a debit on the source and a credit on the target, both
    carrying the amount. *)
Lemma transferFunds_valid now td s src tgt :
  bankAccounts s !! fromAccountId td = Some src →
  bankAccounts s !! toAccountId td = Some tgt →
  fromAccountId td ≠ toAccountId td →
  Num.geb (balance src) (amount td) = true →
  ∃ sourceTransaction targetTransaction s',
    transferFunds now td s = (Returned (sourceTransaction, targetTransaction), s') ∧
    balance <$> bankAccounts s' !! fromAccountId td
      = Some (Num.stored (Num.sub (balance src) (amount td))) ∧
    balance <$> bankAccounts s' !! toAccountId td
      = Some (Num.stored (Num.add (balance tgt) (amount td))) ∧
    transactions s' = transactions s ++ [sourceTransaction; targetTransaction] ∧
    tx_accountId sourceTransaction = fromAccountId td ∧
    tx_type sourceTransaction = "debit" ∧
    tx_amount sourceTransaction = Num.stored (amount td) ∧
    tx_accountId targetTransaction = toAccountId td ∧
    tx_type targetTransaction = "credit" ∧
    tx_amount targetTransaction = Num.stored (amount td).
Proof.
  intros Hsrc Htgt Hne Hge.
  eexists _, _, _. split.
  { apply transferFunds_commits; eauto using geb_not_ltb. }
  simpl. repeat split.
  - rewrite lookup_alter_ne by congruence.
    now rewrite (lookup_set_balance _ _ src).
  - rewrite (lookup_set_balance _ _ tgt); [done|].
    now rewrite lookup_alter_ne.
  - now rewrite <- app_assoc.
Qed.



Lemma transferFunds_valid_witness :
  ∃ sourceTransaction targetTransaction s',
    transferFunds 1000 rent two_accounts
      = (Returned (sourceTransaction, targetTransaction), s') ∧
    balance <$> bankAccounts s' !! fromAccountId rent
      = Some (Num.stored (Num.sub (balance account_A) (amount rent))) ∧
    balance <$> bankAccounts s' !! toAccountId rent
      = Some (Num.stored (Num.add (balance account_B) (amount rent))) ∧
    transactions s' = transactions two_accounts ++ [sourceTransaction; targetTransaction] ∧
    tx_accountId sourceTransaction = fromAccountId rent ∧
    tx_type sourceTransaction = "debit" ∧
    tx_amount sourceTransaction = Num.stored (amount rent) ∧
    tx_accountId targetTransaction = toAccountId rent ∧
    tx_type targetTransaction = "credit" ∧
    tx_amount targetTransaction = Num.stored (amount rent).
Proof.
  apply (transferFunds_valid 1000 rent two_accounts account_A account_B).
  - reflexivity.
  - reflexivity.
  - discriminate.
  - reflexivity.
Defined.

(** The scenario itself: A is left with 70, B with 80, and the two rows
    carry 30. *)
Example transfer_rent :
  ∃ sourceTransaction targetTransaction s',
    transferFunds 1000 rent two_accounts
      = (Returned (sourceTransaction, targetTransaction), s') ∧
    balance <$> bankAccounts s' !! 1 = Some (Num.of_Z 70) ∧
    balance <$> bankAccounts s' !! 2 = Some (Num.of_Z 80) ∧
    tx_amount sourceTransaction = Num.of_Z 30 ∧
    tx_amount targetTransaction = Num.of_Z 30.
Proof. eexists _, _, _. repeat split. Qed.



(** Account A, holding 100, is left with 130 after sending itself 30. *)
Example transfer_to_self :
  ∃ rows s',
    transferFunds 1000 to_self two_accounts = (Returned rows, s') ∧
    balance <$> bankAccounts s' !! 1 = Some (Num.of_Z 130).
Proof. eexists _, _. repeat split. Qed.

(** ** Single transactions *)

(** [createTransaction] has no throwing path of its own: once the row is
    inserted it returns it, whether the account exists or not. *)
Lemma createTransaction_returns now ins s :
  createTransaction now ins s =
    (Returned (new_row now ins s),
     mkStore
       (match bankAccounts s !! ins_accountId ins with
        | Some acct =>
            alter (set_balance (new_balance ins acct)) (ins_accountId ins) (bankAccounts s)
        | None => bankAccounts s
        end)
       (transactions s ++ [new_row now ins s]) (transactions_seq s + 1)
       (savingGoals s) (journalEntries s) (aiAdvices s)).
Proof.
  unfold createTransaction, transaction, createTransaction_body, bind,
    select_account, insert_transaction; simpl.
  destruct (bankAccounts s !! ins_accountId ins); reflexivity.
Qed.

(** C4, as stated, fails: on a store without account 7, a transaction on
    account 7 is not refused; the call returns the row and the ledger holds
    it. *)
Lemma createTransaction_missing_account_returns :
  bankAccounts no_accounts !! ins_accountId coffee = None ∧
  ∃ row s',
    createTransaction 1000 coffee no_accounts = (Returned row, s') ∧
    transactions s' = [row] ∧
    tx_accountId row = 7.
Proof. split; [reflexivity|]. eexists _, _. repeat split. Qed.

(** C4, amended.  When the referenced account does not exist,
    [createTransaction] does not throw: it inserts the ledger row, returns
    it, and leaves every account as it was. *)
Theorem createTransaction_missing_account now ins s :
  bankAccounts s !! ins_accountId ins = None →
  ∃ row s',
    createTransaction now ins s = (Returned row, s') ∧
    transactions s' = transactions s ++ [row] ∧
    tx_accountId row = ins_accountId ins ∧
    tx_amount row = Num.stored (ins_amount ins) ∧
    bankAccounts s' = bankAccounts s.
Proof.
  intros Hnone. eexists _, _. split; [apply createTransaction_returns|].
  simpl. now rewrite Hnone.
Qed.

Lemma createTransaction_missing_account_witness :
  ∃ row s',
    createTransaction 1000 coffee no_accounts = (Returned row, s') ∧
    transactions s' = transactions no_accounts ++ [row] ∧
    tx_accountId row = ins_accountId coffee ∧
    tx_amount row = Num.stored (ins_amount coffee) ∧
    bankAccounts s' = bankAccounts no_accounts.
Proof. apply (createTransaction_missing_account 1000 coffee no_accounts). reflexivity. Defined.

(** C5, as stated, fails: a credit of -5 on an account holding 100 is not
    refused; the row is inserted and the balance becomes 95. *)
Lemma createTransaction_negative_amount_returns :
  Num.geb Num.zero (ins_amount negative_credit) = true ∧
  ∃ row s',
    createTransaction 1000 negative_credit one_account = (Returned row, s') ∧
    transactions s' = [row] ∧
    tx_amount row = Num.of_Z (-5) ∧
    balance <$> bankAccounts s' !! 7 = Some (Num.of_Z 95) ∧
    balance <$> bankAccounts one_account !! 7 = Some (Num.of_Z 100).
Proof. split; [reflexivity|]. eexists _, _. repeat split. Qed.

(** C5, amended.  [createTransaction] has no invalid-amount check: called
    on an existing account with an amount that is a number less than or
    equal to zero, it does not fail; it inserts the ledger row with that
    amount, returns it, and writes the balance the code computes, the
    binary64 difference balance - amount for the type "debit" and the
    binary64 sum balance + amount for any other type. *)
Theorem createTransaction_any_amount now ins s acct :
  bankAccounts s !! ins_accountId ins = Some acct →
  Num.is_finite (ins_amount ins) = true →
  Num.geb Num.zero (ins_amount ins) = true →
  ∃ row s',
    createTransaction now ins s = (Returned row, s') ∧
    transactions s' = transactions s ++ [row] ∧
    tx_accountId row = ins_accountId ins ∧
    tx_amount row = Num.stored (ins_amount ins) ∧
    balance <$> bankAccounts s' !! ins_accountId ins
      = Some (Num.stored (if String.eqb (ins_type ins) "debit"
                          then Num.sub (balance acct) (ins_amount ins)
                          else Num.add (balance acct) (ins_amount ins))).
Proof.
  intros Hacct _ _. eexists _, _. split; [apply createTransaction_returns|].
  simpl. rewrite Hacct. repeat split.
  now rewrite (lookup_set_balance _ _ acct).
Qed.

Lemma createTransaction_any_amount_witness :
  ∃ row s',
    createTransaction 1000 negative_credit one_account = (Returned row, s') ∧
    transactions s' = transactions one_account ++ [row] ∧
    tx_accountId row = ins_accountId negative_credit ∧
    tx_amount row = Num.stored (ins_amount negative_credit) ∧
    balance <$> bankAccounts s' !! ins_accountId negative_credit
      = Some (Num.stored (if String.eqb (ins_type negative_credit) "debit"
                          then Num.sub (balance checking) (ins_amount negative_credit)
                          else Num.add (balance checking) (ins_amount negative_credit))).
Proof.
  apply (createTransaction_any_amount 1000 negative_credit one_account checking);
    reflexivity.
Defined.

(** ** Saving goals *)

(** A deposit on an existing goal returns the updated row, which is the row
    the table then holds. *)
Lemma updateSavingGoal_existing id amount s goal :
  savingGoals s !! id = Some goal →
  let newAmount := Num.add (currentAmount goal) amount in
  let updatedGoal := set_progress newAmount (Num.geb newAmount (targetAmount goal)) goal in
  updateSavingGoal id amount s =
    (Returned (Some updatedGoal),
     set_savingGoals
       (alter (set_progress newAmount (Num.geb newAmount (targetAmount goal))) id) s) ∧
  savingGoals (updateSavingGoal id amount s).2 !! id = Some updatedGoal.
Proof.
  intros Hgoal newAmount updatedGoal.
  unfold updateSavingGoal, transaction, updateSavingGoal_body, bind, select_goal.
  rewrite Hgoal. unfold update_goal. simpl.
  rewrite !lookup_alter_eq, Hgoal. split; reflexivity.
Qed.

(** A deposit on an existing goal returns the updated goal, which is the
    goal stored: its current amount is the binary64 sum the code computes,
    and its completed flag the comparison of that sum with the target.  On
    target 500.00 and current 450.00, a deposit of 60.00 gives current 510
    and completed. *)
Lemma updateSavingGoal_adds id amount s goal :
  savingGoals s !! id = Some goal →
  (∃ updatedGoal s',
     updateSavingGoal id amount s = (Returned (Some updatedGoal), s') ∧
     savingGoals s' !! id = Some updatedGoal ∧
     currentAmount updatedGoal = Num.stored (Num.add (currentAmount goal) amount) ∧
     targetAmount updatedGoal = targetAmount goal ∧
     (completed updatedGoal = true ↔
        Num.geb (Num.add (currentAmount goal) amount) (targetAmount goal) = true) ∧
     completed updatedGoal = Num.geb (currentAmount updatedGoal) (targetAmount updatedGoal)) ∧
  (∃ updatedGoal s',
     updateSavingGoal 3 (Num.decimal 6000 2) one_goal = (Returned (Some updatedGoal), s') ∧
     currentAmount updatedGoal = Num.of_Z 510 ∧
     completed updatedGoal = true).
Proof.
  intros Hgoal. split.
  - destruct (updateSavingGoal_existing id amount s goal Hgoal) as [Hrun Hrow].
    eexists _, _. split; [exact Hrun|].
    rewrite Hrun in Hrow. simpl in *.
    repeat split; try done.
    now rewrite geb_stored_l.
  - eexists _, _. repeat split.
Qed.

Lemma updateSavingGoal_adds_witness :
  ∃ updatedGoal s',
    updateSavingGoal 3 (Num.decimal 6000 2) one_goal = (Returned (Some updatedGoal), s') ∧
    savingGoals s' !! 3 = Some updatedGoal ∧
    currentAmount updatedGoal
      = Num.stored (Num.add (currentAmount holiday) (Num.decimal 6000 2)) ∧
    targetAmount updatedGoal = targetAmount holiday ∧
    (completed updatedGoal = true ↔
       Num.geb (Num.add (currentAmount holiday) (Num.decimal 6000 2))
               (targetAmount holiday) = true) ∧
    completed updatedGoal = Num.geb (currentAmount updatedGoal) (targetAmount updatedGoal).
Proof.
  apply (updateSavingGoal_adds 3 (Num.decimal 6000 2) one_goal holiday). reflexivity.
Defined.

(** ** Read helpers: newest first *)

Section Sorting.

Context {A : Type} (date : A → Z).

Lemma sort_insert_perm x l : sort_insert (by_date date) x l ≡ₚ x :: l.
Proof.
  induction l as [|y l IH]; simpl; [done|].
  destruct (0 <? by_date date x y); [|done].
  rewrite IH. apply perm_swap.
Qed.

Lemma Array_sort_perm l : Array_sort (by_date date) l ≡ₚ l.
Proof.
  induction l as [|x l IH]; simpl; [done|].
  now rewrite sort_insert_perm, IH.
Qed.

Lemma sort_insert_sorted x l :
  StronglySorted (later_or_same date) l →
  StronglySorted (later_or_same date) (sort_insert (by_date date) x l).
Proof.
  induction 1 as [|y l Hl IH Hy]; simpl.
  - repeat constructor.
  - destruct (Z.ltb_spec 0 (by_date date x y)) as [Hlt|Hge]; unfold by_date, later_or_same in *.
    + constructor; [exact IH|].
      rewrite sort_insert_perm. constructor; [simpl in *; lia | exact Hy].
    + constructor; [now constructor|].
      constructor; [simpl in *; lia|].
      eapply Forall_impl; [exact Hy|]. simpl in *. intros; lia.
Qed.

Lemma Array_sort_sorted l : StronglySorted (later_or_same date) (Array_sort (by_date date) l).
Proof.
  induction l as [|x l IH]; simpl; [constructor | now apply sort_insert_sorted].
Qed.

Lemma StronglySorted_newest_first l :
  StronglySorted (later_or_same date) l → newest_first date l.
Proof.
  induction 1 as [|x l Hl IH Hx]; intros i a b Ha Hb; [done|].
  destruct i as [|i]; simpl in *.
  - inversion Ha; subst a.
    rewrite Forall_forall in Hx. apply Hx.
    eapply list_elem_of_lookup_2; eauto.
  - eauto.
Qed.

Lemma orderBy_desc_newest_first rows : newest_first date (orderBy_desc date rows).
Proof. apply StronglySorted_newest_first, Array_sort_sorted. Qed.

Lemma Array_sort_newest_first l :
  newest_first date (Array_sort (λ a b, date b - date a) l).
Proof. apply StronglySorted_newest_first, Array_sort_sorted. Qed.

(** In a list sorted newest first, nothing after the first [n] elements is
    newer than one of them. *)
Lemma orderBy_desc_take_drop n rows e e' :
  e ∈ take n (orderBy_desc date rows) →
  e' ∈ drop n (orderBy_desc date rows) →
  date e' ≤ date e.
Proof.
  intros He He'.
  assert (StronglySorted (later_or_same date) (orderBy_desc date rows)) as Hs
    by apply Array_sort_sorted.
  rewrite <- (take_drop n (orderBy_desc date rows)) in Hs.
  revert He He' Hs.
  generalize (take n (orderBy_desc date rows)) (drop n (orderBy_desc date rows)).
  intros l1 l2 He He' Hs.
  induction l1 as [|x l1 IH]; [by apply elem_of_nil in He|].
  simpl in Hs. inversion Hs as [|? ? Hs' Hx]; subst.
  apply elem_of_cons in He as [->|He]; [|eauto].
  rewrite Forall_forall in Hx. apply Hx, elem_of_app. now right.
Qed.

End Sorting.

(** C10.  The lists returned by [getTransactionsByUserId],
    [getTransactionsByAccountId], [getJournalEntriesByUserId] and
    [getAiAdvicesByUserId] are sorted newest first: the date of each element
    is greater than or equal to the date of the next one. *)
Theorem read_helpers_newest_first (userId accountId : Z) (s : Store) :
  newest_first tx_date (getTransactionsByUserId userId s) ∧
  newest_first tx_date (getTransactionsByAccountId accountId s) ∧
  newest_first je_date (getJournalEntriesByUserId userId s) ∧
  newest_first adv_date (getAiAdvicesByUserId userId s).
Proof.
  repeat split; try apply orderBy_desc_newest_first.
  unfold getTransactionsByUserId. case_decide.
  - intros i a b Ha. by rewrite lookup_nil in Ha.
  - apply Array_sort_newest_first.
Qed.

(** ** The dominant mood *)

Section DominantMood.

Lemma occurrences_snoc k l m :
  occurrences k (l ++ [m]) = (occurrences k l + if decide (m = k) then 1 else 0)%nat.
Proof.
  unfold occurrences. rewrite filter_app, length_app. f_equal.
  rewrite filter_cons, filter_nil. now destruct (decide (m = k)).
Qed.

Lemma occurrences_pos k l : k ∈ l → (0 < occurrences k l)%nat.
Proof.
  intros Hk. unfold occurrences.
  assert (k ∈ filter (λ x, x = k) l) as Hin by now apply list_elem_of_filter.
  destruct (filter (λ x, x = k) l); [by apply elem_of_nil in Hin | simpl; lia].
Qed.

Lemma occurrences_notin k l : k ∉ l → occurrences k l = 0%nat.
Proof.
  intros Hk. unfold occurrences.
  destruct (filter (λ x, x = k) l) as [|y r] eqn:E; [done|].
  assert (y ∈ filter (λ x, x = k) l) as Hin by (rewrite E; left).
  apply list_elem_of_filter in Hin as [-> Hin]. contradiction.
Qed.

Lemma first_seen_spec l :
  NoDup (first_seen l) ∧ ∀ k, k ∈ first_seen l ↔ k ∈ l.
Proof.
  induction l as [|m l [Hnd Hin]] using rev_ind.
  - split; [constructor | done].
  - unfold first_seen in *. rewrite foldl_app. simpl.
    case_decide as Hm.
    + split; [done|]. intros k. rewrite elem_of_app, list_elem_of_singleton, Hin.
      split; [tauto|]. intros [?| ->]; [done|]. now apply Hin.
    + split.
      * apply NoDup_app. repeat split; [done| |apply NoDup_singleton].
        intros x Hx ->%list_elem_of_singleton. contradiction.
      * intros k. rewrite !elem_of_app, Hin. tauto.
Qed.

(** Counting one more mood when the moods met are [ks]. *)
Lemma bump_fmap (f : Mood → nat) m ks :
  NoDup ks →
  bump m ((λ k, (k, f k)) <$> ks) =
    if decide (m ∈ ks)
    then (λ k, (k, (f k + if decide (m = k) then 1 else 0)%nat)) <$> ks
    else ((λ k, (k, f k)) <$> ks) ++ [(m, 1%nat)].
Proof.
  induction 1 as [|k ks Hk Hnd IH]; [done|].
  rewrite !fmap_cons. cbn [bump].
  destruct (decide (k = m)) as [->|Hne].
  - rewrite decide_True by left. rewrite decide_True by done. f_equal.
    apply list_fmap_ext. intros i k Hi.
    destruct (decide (m = k)) as [->|]; [|now rewrite Nat.add_0_r].
    exfalso. apply Hk. eapply list_elem_of_lookup_2; eauto.
  - rewrite IH. rewrite (decide_False (P := m = k)) by done.
    destruct (decide (m ∈ ks)) as [Hin|Hin].
    + rewrite decide_True by now right. now rewrite Nat.add_0_r.
    + rewrite decide_False; [done|].
      intros [->|?]%elem_of_cons; contradiction.
Qed.

(** The tally holds, for each mood met, its number of occurrences, in the
    order the moods were first met. *)
Lemma tally_spec l :
  tally l = (λ k, (k, occurrences k l)) <$> first_seen l.
Proof.
  induction l as [|m l IH] using rev_ind; [done|].
  unfold tally, first_seen in *. rewrite !foldl_app. simpl. rewrite IH.
  fold (first_seen l).
  destruct (first_seen_spec l) as [Hnd Hin].
  rewrite bump_fmap by done.
  destruct (decide (m ∈ first_seen l)) as [Hm|Hm].
  - apply list_fmap_ext. intros i k Hi. now rewrite occurrences_snoc.
  - rewrite fmap_app. simpl. f_equal.
    + apply list_fmap_ext. intros i k Hi. rewrite occurrences_snoc.
      destruct (decide (m = k)) as [->|]; [|now rewrite Nat.add_0_r].
      exfalso. apply Hm. eapply list_elem_of_lookup_2; eauto.
    + rewrite occurrences_snoc, decide_True by done.
      rewrite occurrences_notin; [done|]. now rewrite <- Hin.
Qed.

Lemma first_seen_order l ks1 k ks2 k' :
  first_seen l = ks1 ++ k :: ks2 → k' ∈ ks2 → encountered_before k k' l.
Proof.
  revert ks1 k ks2 k'.
  induction l as [|m l IH] using rev_ind; intros ks1 k ks2 k' Hks Hk'.
  - destruct ks1; discriminate.
  - assert (∀ a b, encountered_before a b l → encountered_before a b (l ++ [m])) as Hmono.
    { intros a b (l1 & l2 & -> & Hb). exists l1, (l2 ++ [m]).
      split; [|done]. now rewrite <- app_assoc. }
    unfold first_seen in Hks. rewrite foldl_app in Hks. simpl in Hks.
    fold (first_seen l) in Hks.
    destruct (first_seen_spec l) as [Hnd Hin].
    case_decide as Hm; [eauto|].
    destruct (decide (ks2 = [])) as [->|Hne]; [by apply elem_of_nil in Hk'|].
    destruct (exists_last Hne) as (ks2' & x & ->).
    rewrite app_comm_cons, app_assoc in Hks.
    apply app_inj_tail in Hks as [Hks Hx]. subst x.
    apply elem_of_app in Hk' as [Hk'|Hk'%list_elem_of_singleton]; [eauto|].
    subst k'.
    assert (k ∈ l) as Hk.
    { apply Hin. rewrite Hks, elem_of_app, elem_of_cons. tauto. }
    apply list_elem_of_split in Hk as (l1 & l2 & ->).
    exists l1, (l2 ++ [m]). split; [now rewrite <- app_assoc|].
    intros Hml. apply Hm, Hin, elem_of_app. now left.
Qed.

Lemma scan_cons a q k c counts :
  scan (a, q) ((k, c) :: counts) =
    scan (if (a <? c)%nat then (c, k) else (a, q)) counts.
Proof. reflexivity. Qed.

Lemma scan_spec (f : Mood → nat) ks a q :
  (scan (a, q) ((λ k, (k, f k)) <$> ks) = (a, q) ∧ ∀ k, k ∈ ks → (f k ≤ a)%nat) ∨
  (∃ ks1 p ks2,
      ks = ks1 ++ p :: ks2 ∧
      scan (a, q) ((λ k, (k, f k)) <$> ks) = (f p, p) ∧
      (a < f p)%nat ∧
      (∀ k, k ∈ ks1 → (f k < f p)%nat) ∧
      (∀ k, k ∈ ks2 → (f k ≤ f p)%nat)).
Proof.
  revert a q. induction ks as [|k ks IH]; intros a q.
  - left. split; [done|]. intros k Hk. by apply elem_of_nil in Hk.
  - rewrite fmap_cons, scan_cons.
    destruct (Nat.ltb_spec a (f k)) as [Hlt|Hge].
    + right. destruct (IH (f k) k) as [[-> Hall]|(ks1 & p & ks2 & -> & -> & Hp & H1 & H2)].
      * exists [], k, ks. repeat split; try done.
        intros x Hx. by apply elem_of_nil in Hx.
      * exists (k :: ks1), p, ks2. repeat split; try done; [lia|].
        intros x [->|Hx]%elem_of_cons; [lia | eauto].
    + destruct (IH a q) as [[-> Hall]|(ks1 & p & ks2 & -> & -> & Hp & H1 & H2)].
      * left. split; [done|]. intros x [->|Hx]%elem_of_cons; [lia | eauto].
      * right. exists (k :: ks1), p, ks2. repeat split; try done.
        intros x [->|Hx]%elem_of_cons; [lia | eauto].
Qed.

(** On a non-empty list the scan of its counts returns its mode. *)
Lemma scan_tally_mode l :
  l ≠ [] → mode_first l (scan (0%nat, neutral) (tally l)).2.
Proof.
  intros Hl. rewrite tally_spec.
  destruct (first_seen_spec l) as [Hnd Hin].
  destruct (scan_spec (λ k, occurrences k l) (first_seen l) 0%nat neutral)
    as [[_ Hall]|(ks1 & p & ks2 & Hks & -> & Hp & H1 & H2)].
  - exfalso. destruct l as [|m l]; [done|].
    assert (m ∈ m :: l) as Hm by left.
    pose proof (occurrences_pos _ _ Hm). apply Hin, Hall in Hm. lia.
  - simpl. split.
    + apply Hin. rewrite Hks, elem_of_app, elem_of_cons. tauto.
    + intros m' Hne. destruct (decide (m' ∈ l)) as [Hm'|Hm'].
      * apply Hin in Hm'. rewrite Hks, elem_of_app, elem_of_cons in Hm'.
        destruct Hm' as [Hm'|[->|Hm']]; [left; eauto|done|].
        destruct (decide (occurrences m' l = occurrences p l)) as [He|He].
        -- right. split; [done|]. eapply first_seen_order; eauto.
        -- left. specialize (H2 _ Hm'). simpl in H2. lia.
      * left. rewrite (occurrences_notin m' l) by done. exact Hp.
Qed.

(** *** The object [moodCounts] *)

Lemma own_property_define o key v k :
  own_property (define_property o key v) k
    = if decide (k = key) then Some v else own_property o k.
Proof.
  induction o as [|[k' c] o IH]; simpl.
  - destruct (decide (key = k)), (decide (k = key)); congruence.
  - destruct (decide (k' = key)) as [->|Hne]; simpl.
    + destruct (decide (key = k)), (decide (k = key)); congruence.
    + destruct (decide (k' = k)) as [->|]; [now rewrite decide_False|exact IH].
Qed.

Lemma own_property_elem_of o k v : own_property o k = Some v → (k, v) ∈ o.
Proof.
  induction o as [|[k' c] o IH]; [done|]. simpl.
  destruct (decide (k' = k)) as [->|]; [intros [= ->]; left|right; auto].
Qed.

Lemma own_property_None o k : own_property o k = None ↔ k ∉ o.*1.
Proof.
  induction o as [|[k' c] o IH]; simpl.
  - split; [intros _ H; by apply elem_of_nil in H|done].
  - rewrite not_elem_of_cons. destruct (decide (k' = k)) as [->|Hne].
    + split; [done|]. intros [? _]. done.
    + rewrite IH. split; [intros; split; [congruence|done]|tauto].
Qed.

Lemma elem_of_own_property o k v : NoDup o.*1 → (k, v) ∈ o → own_property o k = Some v.
Proof.
  induction o as [|[k' c] o IH]; [intros _ H; by apply elem_of_nil in H|].
  rewrite fmap_cons, NoDup_cons. simpl. intros [Hk Hnd] [[= -> ->]|Hin]%elem_of_cons.
  - now rewrite decide_True.
  - rewrite decide_False; [auto|]. intros ->. apply Hk.
    apply list_elem_of_fmap. now exists (k, v).
Qed.

Lemma define_property_keys o key v :
  (define_property o key v).*1 = if decide (key ∈ o.*1) then o.*1 else o.*1 ++ [key].
Proof.
  induction o as [|[k c] o IH]; [done|].
  cbn [define_property]. rewrite (fmap_cons fst (k, c) o). cbn [fst].
  destruct (decide (k = key)) as [->|Hne].
  - rewrite fmap_cons. cbn [fst]. rewrite decide_True by left. done.
  - rewrite fmap_cons, IH. cbn [fst]. destruct (decide (key ∈ o.*1)) as [Hin|Hin].
    + rewrite decide_True by now right. done.
    + rewrite decide_False; [done|]. intros [?|?]%elem_of_cons; congruence.
Qed.

Lemma define_property_NoDup o key v : NoDup o.*1 → NoDup (define_property o key v).*1.
Proof.
  intros Hnd. rewrite define_property_keys. case_decide as Hin; [done|].
  apply NoDup_app. repeat split; [done| |apply NoDup_singleton].
  intros x Hx ->%list_elem_of_singleton. contradiction.
Qed.

(** What the object holds after the moods [l] were counted: nothing under
    "__proto__", a string under the name of any other member of
    [Object.prototype], and the number of its occurrences under every other
    mood met. *)
Lemma moodCounts_spec recent :
  let o := moodCounts recent in
  let l := mood <$> recent in
  NoDup o.*1 ∧
  ∀ k, own_property o k =
         if decide (k ∈ l ∧ k ≠ "__proto__")
         then Some (if decide (k ∈ Object_prototype) then text
                    else number (occurrences k l))
         else None.
Proof.
  unfold moodCounts. induction recent as [|e recent IH] using rev_ind.
  - split; [constructor|]. intros k. rewrite decide_False; [done|].
    intros [H _]. by apply elem_of_nil in H.
  - cbv zeta in *. destruct IH as [Hnd Hown].
    rewrite foldl_app, fmap_app. simpl.
    set (o := foldl (λ counts entry, count_mood (mood entry) counts) [] recent) in *.
    set (l := mood <$> recent) in *.
    unfold count_mood, Object_set.
    destruct (decide (mood e = "__proto__")) as [Hp|Hp].
    + split; [done|]. intros k. rewrite Hown.
      destruct (decide (k = "__proto__")) as [->|Hk].
      * rewrite (decide_False (P := "__proto__" ∈ l ∧ "__proto__" ≠ "__proto__")) by tauto.
        now rewrite (decide_False (P := "__proto__" ∈ l ++ [mood e] ∧ _)) by tauto.
      * assert (k ∈ l ++ [mood e] ↔ k ∈ l) as Hiff.
        { rewrite elem_of_app, list_elem_of_singleton. split; [|tauto].
          intros [?|?]; [done|congruence]. }
        assert (occurrences k (l ++ [mood e]) = occurrences k l) as ->.
        { rewrite occurrences_snoc, decide_False by congruence. lia. }
        destruct (decide (k ∈ l ∧ k ≠ "__proto__")) as [Hin|Hin].
        -- now rewrite (decide_True (P := k ∈ l ++ [mood e] ∧ k ≠ "__proto__")) by tauto.
        -- now rewrite (decide_False (P := k ∈ l ++ [mood e] ∧ k ≠ "__proto__")) by tauto.
    + split; [now apply define_property_NoDup|]. intros k.
      rewrite own_property_define.
      destruct (decide (k = mood e)) as [->|Hk].
      * rewrite (decide_True (P := mood e ∈ l ++ [mood e] ∧ mood e ≠ "__proto__"))
          by (split; [apply elem_of_app; right; left|done]).
        f_equal. unfold Object_get. rewrite Hown.
        destruct (decide (mood e ∈ Object_prototype)) as [Hin|Hin].
        -- now destruct (decide (mood e ∈ l ∧ mood e ≠ "__proto__")).
        -- rewrite occurrences_snoc, (decide_True (P := mood e = mood e)) by done.
           destruct (decide (mood e ∈ l ∧ mood e ≠ "__proto__")) as [[Hl _]|Hl]; [done|].
           rewrite occurrences_notin; [done|]. tauto.
      * rewrite Hown.
        assert (k ∈ l ++ [mood e] ↔ k ∈ l) as Hiff.
        { rewrite elem_of_app, list_elem_of_singleton. tauto. }
        assert (occurrences k (l ++ [mood e]) = occurrences k l) as ->.
        { rewrite occurrences_snoc, decide_False by congruence. lia. }
        destruct (decide (k ∈ l ∧ k ≠ "__proto__")) as [Hin|Hin].
        -- now rewrite (decide_True (P := k ∈ l ++ [mood e] ∧ k ≠ "__proto__")) by tauto.
        -- now rewrite (decide_False (P := k ∈ l ++ [mood e] ∧ k ≠ "__proto__")) by tauto.
Qed.

(** On moods that are no members of [Object.prototype] the object is the
    tally, key for key. *)
Lemma define_property_numbers m t :
  define_property (numbers t) m
    (or_zero_plus_one (match own_property (numbers t) m with
                       | Some v => v
                       | None => undefined
                       end))
    = numbers (bump m t).
Proof.
  unfold numbers. induction t as [|[k c] t IH]; [done|].
  rewrite fmap_cons. cbn [own_property define_property bump fst snd].
  destruct (decide (k = m)) as [->|Hne]; [done|].
  rewrite fmap_cons. simpl. f_equal. exact IH.
Qed.

Lemma count_mood_numbers m t :
  m ∉ Object_prototype → count_mood m (numbers t) = numbers (bump m t).
Proof.
  intros Hm. unfold count_mood, Object_set, Object_get.
  rewrite decide_False by (intros ->; apply Hm; by apply (bool_decide_unpack _)).
  rewrite <- define_property_numbers. f_equal.
  destruct (own_property (numbers t) m); [done|]. now rewrite decide_False.
Qed.

Lemma moodCounts_tally recent :
  Forall (λ m, m ∉ Object_prototype) (mood <$> recent) →
  moodCounts recent = numbers (tally (mood <$> recent)).
Proof.
  unfold moodCounts, tally. induction recent as [|e recent IH] using rev_ind; [done|].
  intros H. rewrite fmap_app in H. apply Forall_app in H as [Hl He].
  simpl in He. apply Forall_inv in He.
  rewrite fmap_app, !foldl_app. simpl. rewrite IH by done. now apply count_mood_numbers.
Qed.

(** *** [Object.entries] *)

Lemma omap_indices (o : list (string * JsValue)) :
  snd <$> omap (λ p, (λ i, (i, p)) <$> array_index p.1) o
    = filter (λ p, array_index p.1 ≠ None) o.
Proof.
  induction o as [|p o IH]; [done|].
  rewrite filter_cons. simpl. destruct (array_index p.1) as [i|] eqn:E; simpl.
  - f_equal. exact IH.
  - exact IH.
Qed.

(** Sorting, by whatever comparison, keeps the elements. *)
Lemma Array_sort_elements {A} (compareFn : A → A → Z) l : Array_sort compareFn l ≡ₚ l.
Proof.
  assert (∀ x l, sort_insert compareFn x l ≡ₚ x :: l) as Hins.
  { clear l. intros x l. induction l as [|y l IH]; simpl; [done|].
    destruct (0 <? compareFn x y); [|done]. rewrite IH. apply perm_swap. }
  induction l as [|x l IH]; simpl; [done|]. now rewrite Hins, IH.
Qed.

(** [Object.entries] lists every own property, and nothing else. *)
Lemma elem_of_Object_entries o p : p ∈ Object_entries o ↔ p ∈ o.
Proof.
  unfold Object_entries. rewrite elem_of_app.
  rewrite Array_sort_elements, omap_indices.
  rewrite !list_elem_of_filter.
  destruct (array_index p.1) as [i|]; split; try tauto. intros H. now left.
Qed.

(** Without array indices among the keys it keeps their order. *)
Lemma Object_entries_numbers t :
  Forall (λ p, array_index p.1 = None) t → Object_entries (numbers t) = numbers t.
Proof.
  intros Ht. unfold Object_entries.
  assert (Forall (λ p : string * JsValue, array_index p.1 = None) (numbers t)) as Hn.
  { unfold numbers. apply Forall_fmap. eapply Forall_impl; [exact Ht|]. done. }
  replace (omap (λ p, (λ i, (i, p)) <$> array_index p.1) (numbers t)) with
    (@nil (N * (string * JsValue))).
  - simpl. clear Ht. induction Hn as [|p o Hp Ho IH]; [done|].
    rewrite filter_cons, decide_True by done. now rewrite IH.
  - clear Ht. induction Hn as [|p o Hp Ho IH]; [done|]. simpl. now rewrite Hp.
Qed.

(** *** The scan for the maximum *)

Lemma greater_scan entries : ∀ acc,
  foldl greater acc entries = scan acc ((λ p, (p.1, count_of p.2)) <$> entries).
Proof.
  induction entries as [|[k v] entries IH]; intros [a q]; [done|].
  rewrite fmap_cons. cbn [foldl]. rewrite IH. unfold scan at 2. cbn [foldl].
  fold (scan (if (a <? count_of v)%nat then (count_of v, k) else (a, q))
             ((λ p, (p.1, count_of p.2)) <$> entries)).
  f_equal. destruct v; simpl; try done.
Qed.

Lemma numbers_counts t : (λ p : string * JsValue, (p.1, count_of p.2)) <$> numbers t = t.
Proof.
  unfold numbers. rewrite <- list_fmap_compose. rewrite <- (list_fmap_id t) at 2.
  apply list_fmap_ext. now intros i [k c] _.
Qed.

(** The scan returns the greatest count it met, with a key that has it. *)
Lemma scan_max counts : ∀ a q a' q',
  scan (a, q) counts = (a', q') →
  (a ≤ a')%nat ∧
  (∀ k c, (k, c) ∈ counts → (c ≤ a')%nat) ∧
  ((a', q') = (a, q) ∨ ((a < a')%nat ∧ (q', a') ∈ counts)).
Proof.
  induction counts as [|[k c] counts IH]; intros a q a' q'.
  - intros [= -> ->]. repeat split; [lia| |now left].
    intros k c H. by apply elem_of_nil in H.
  - rewrite scan_cons. destruct (Nat.ltb_spec a c) as [Hlt|Hge]; intros Hscan.
    + destruct (IH _ _ _ _ Hscan) as (Hle & Hall & Hres). repeat split; [lia| |].
      * intros k' c' [[= -> ->]|Hin]%elem_of_cons; eauto.
      * right. split; [lia|]. destruct Hres as [[= -> ->]|[_ Hin]]; [left|now right].
    + destruct (IH _ _ _ _ Hscan) as (Hle & Hall & Hres). repeat split; [lia| |].
      * intros k' c' [[= -> ->]|Hin]%elem_of_cons; [lia|eauto].
      * destruct Hres as [?|[? Hin]]; [now left|right]. split; [done|now right].
Qed.

(** The primary mood as the scan of the entries of the object. *)
Lemma primaryMood_scan entries :
  primaryMood entries =
    match entries with
    | [] => neutral
    | _ => (scan (0%nat, neutral)
              ((λ p, (p.1, count_of p.2))
                 <$> Object_entries (moodCounts (take 5 entries)))).2
    end.
Proof.
  unfold primaryMood, recentJournalEntries. rewrite greater_scan.
  destruct entries as [|e entries]; [done|].
  rewrite decide_True; [reflexivity | simpl; lia].
Qed.

(** On plain moods it is the scan of the tally. *)
Lemma primaryMood_spec entries :
  Forall plain (mood <$> take 5 entries) →
  primaryMood entries =
    match entries with
    | [] => neutral
    | _ => (scan (0%nat, neutral) (tally (mood <$> take 5 entries))).2
    end.
Proof.
  intros Hplain. rewrite primaryMood_scan. destruct entries as [|e entries]; [done|].
  rewrite moodCounts_tally by (eapply Forall_impl; [exact Hplain|]; now intros m [_ ?]).
  rewrite Object_entries_numbers, numbers_counts; [done|].
  rewrite tally_spec. apply Forall_fmap, Forall_forall. intros k Hk. simpl.
  destruct (first_seen_spec (mood <$> take 5 (e :: entries))) as [_ Hin].
  apply Hin in Hk. rewrite Forall_forall in Hplain.
  now destruct (Hplain k Hk).
Qed.

(** Two moods cannot each be met before the other. *)
Lemma encountered_before_asym m m' l :
  m ≠ m' → encountered_before m m' l → encountered_before m' m l → False.
Proof.
  intros Hne (l1 & l2 & -> & H1) (l1' & l2' & E & H2).
  destruct (decide (length l1 < length l1')%nat) as [Hlt|Hge].
  - apply H2. apply (f_equal (λ l, l !! length l1)) in E.
    rewrite list_lookup_middle in E by done.
    rewrite lookup_app_l in E by done.
    eapply list_elem_of_lookup_2; eauto.
  - destruct (decide (length l1' < length l1)%nat) as [Hlt|Hge'].
    + apply H1. apply (f_equal (λ l, l !! length l1')) in E.
      rewrite (list_lookup_middle l1' l2') in E by done.
      rewrite lookup_app_l in E by done.
      eapply list_elem_of_lookup_2; eauto.
    + apply Hne. apply (f_equal (λ l, l !! length l1)) in E.
      rewrite list_lookup_middle in E by done.
      rewrite list_lookup_middle in E by lia. congruence.
Qed.

(** A list has at most one mode. *)
Lemma mode_first_unique l m1 m2 : mode_first l m1 → mode_first l m2 → m1 = m2.
Proof.
  intros [_ H1] [_ H2]. destruct (decide (m1 = m2)) as [|Hne]; [done|].
  destruct (H1 m2) as [?|[? ?]]; [congruence| |];
    (destruct (H2 m1) as [?|[? ?]]; [congruence| |]); try lia.
  exfalso. eapply (encountered_before_asym m1 m2); eauto.
Qed.

End DominantMood.

(** The four moods of the schema are plain keys. *)
Lemma schema_moods_plain : plain sad ∧ plain neutral ∧ plain happy ∧ plain very_happy.
Proof. repeat split; try reflexivity; by apply (bool_decide_unpack _). Qed.

(** C9, as stated, fails.  With the entries "happy" (the newer) and "1", each
    mood occurs once and "happy" is met first, but the dominant mood
    computed is "1": [Object.entries] lists the array index "1" before
    "happy", and the scan keeps the first key with the greatest count. *)
Lemma dominantMood_index_key_first :
  mood <$> take 5 (getJournalEntriesByUserId 1 happy_then_1) = [happy; "1"] ∧
  mode_first [happy; "1"] happy ∧
  dominantMood 1 happy_then_1 = "1".
Proof.
  split; [reflexivity|]. split; [|reflexivity]. split; [left|].
  intros m' Hne. destruct (decide (m' = "1")) as [->|Hne1].
  - right. split; [reflexivity|]. exists [], ["1"]. split; [reflexivity|].
    intros H. by apply elem_of_nil in H.
  - left. unfold occurrences. rewrite !filter_cons, filter_nil.
    rewrite (decide_False (P := happy = m')) by congruence.
    rewrite (decide_False (P := "1" = m')) by congruence.
    rewrite (decide_True (P := happy = happy)) by done.
    rewrite (decide_False (P := "1" = happy)) by done. simpl. lia.
Qed.

(** C9, amended.  When none of the moods of the user's five most recent
    journal entries is an array index (such as "1") or the name of a member
    of [Object.prototype] (such as "constructor"), as none of the four moods
    of the schema is, the dominant mood the advice generator computes is the
    mode of those moods (the first five of the entries listed newest first,
    none of the others being newer), ties going to the mood met first in
    that order; it is "neutral" when the user has no journal entry. *)
Theorem dominantMood_is_mode (userId : Z) (s : Store) :
  Forall plain (mood <$> take 5 (getJournalEntriesByUserId userId s)) →
  let entries := getJournalEntriesByUserId userId s in
  let recent := take 5 entries in
  entries ≡ₚ filter (λ e, je_userId e = userId) (journalEntries s) ∧
  (∀ e e', e ∈ recent → e' ∈ drop 5 entries → je_date e' ≤ je_date e) ∧
  ((entries = [] ∧ dominantMood userId s = neutral) ∨
   (entries ≠ [] ∧
    mode_first (mood <$> recent) (dominantMood userId s) ∧
    ∀ m, mode_first (mood <$> recent) m → m = dominantMood userId s)).
Proof.
  intros Hplain entries recent. split; [apply Array_sort_perm|].
  split; [intros e e'; apply orderBy_desc_take_drop|].
  unfold dominantMood. fold entries. rewrite primaryMood_spec by exact Hplain.
  destruct entries as [|e entries'] eqn:E; [now left|right].
  split; [done|].
  assert (mode_first (mood <$> recent)
            (scan (0%nat, neutral) (tally (mood <$> take 5 (e :: entries')))).2) as Hmode.
  { apply scan_tally_mode. subst recent. done. }
  split; [exact Hmode|].
  intros m Hm. eapply mode_first_unique; eauto.
Qed.

Lemma dominantMood_is_mode_witness :
  let entries := getJournalEntriesByUserId 1 three_entries in
  let recent := take 5 entries in
  entries ≡ₚ filter (λ e, je_userId e = 1) (journalEntries three_entries) ∧
  (∀ e e', e ∈ recent → e' ∈ drop 5 entries → je_date e' ≤ je_date e) ∧
  ((entries = [] ∧ dominantMood 1 three_entries = neutral) ∨
   (entries ≠ [] ∧
    mode_first (mood <$> recent) (dominantMood 1 three_entries) ∧
    ∀ m, mode_first (mood <$> recent) m → m = dominantMood 1 three_entries)).
Proof.
  apply (dominantMood_is_mode 1 three_entries).
  repeat constructor; by apply (bool_decide_unpack _).
Defined.

(** ** Successive deposits *)

Section Deposits.

Lemma deposits_lookup id l : ∀ s goal,
  savingGoals s !! id = Some goal →
  savingGoals (deposits id l s) !! id = Some (funded goal l).
Proof.
  induction l as [|a l IH]; intros s goal Hgoal; [done|].
  apply (IH (deposit id s a) (fund goal a)).
  now destruct (updateSavingGoal_existing id a s goal Hgoal) as [_ Hrow].
Qed.

Lemma funded_target l : ∀ g, targetAmount (funded g l) = targetAmount g.
Proof. induction l as [|a l IH]; intros g; [done|]. apply (IH (fund g a)). Qed.

Lemma funded_snoc g l a : funded g (l ++ [a]) = fund (funded g l) a.
Proof. unfold funded. now rewrite foldl_app. Qed.

(** After a deposit the flag is the comparison of the stored amounts. *)
Lemma fund_completed g a :
  completed (fund g a) = Num.geb (currentAmount (fund g a)) (targetAmount g).
Proof. unfold fund. simpl. now rewrite geb_stored_l. Qed.

Lemma funded_completed g l :
  l ≠ [] →
  completed (funded g l) = Num.geb (currentAmount (funded g l)) (targetAmount g).
Proof.
  intros Hl. destruct (exists_last Hl) as (l' & a & ->).
  rewrite funded_snoc, fund_completed. now rewrite funded_target.
Qed.

Lemma positive_amount_inv a :
  positive_amount a →
  ∃ m e, a = S754_finite false m e ∧ bounded Num.prec Num.emax m e = true.
Proof.
  intros (Hv & Hf & Hp). destruct a as [?|?| |[] m e]; try done. eauto.
Qed.

Lemma geb_not_nan x y : Num.geb x y = true → x ≠ S754_nan.
Proof. intros H ->. now destruct y. Qed.

(** A positive deposit keeps the amount valid and at or above any target
    it had reached. *)
Lemma fund_keeps g a :
  Num.valid (currentAmount g) = true → Num.valid (targetAmount g) = true →
  positive_amount a →
  Num.valid (currentAmount (fund g a)) = true ∧
  (Num.geb (currentAmount g) (targetAmount g) = true →
   Num.geb (currentAmount (fund g a)) (targetAmount g) = true).
Proof.
  intros Hc Ht Ha. pose proof Ha as (Hva & _).
  apply positive_amount_inv in Ha as (m & e & -> & Hb).
  assert (Num.valid (Num.add (currentAmount g) (S754_finite false m e)) = true) as Hsum
    by now apply add_valid.
  unfold fund. simpl. split; [now apply stored_valid|].
  intros Hge. rewrite geb_stored_l.
  eapply geb_trans; [done| |done| |exact Hge]; [done|].
  apply add_positive_ge; [done| |done]. eapply geb_not_nan, Hge.
Qed.

Lemma funded_keeps l : ∀ g,
  Num.valid (currentAmount g) = true → Num.valid (targetAmount g) = true →
  Forall positive_amount l →
  Num.valid (currentAmount (funded g l)) = true ∧
  (Num.geb (currentAmount g) (targetAmount g) = true →
   Num.geb (currentAmount (funded g l)) (targetAmount g) = true).
Proof.
  induction l as [|a l IH]; intros g Hc Ht Hl; [done|].
  apply Forall_cons in Hl as [Ha Hl].
  destruct (fund_keeps g a Hc Ht Ha) as [Hc' Hge'].
  destruct (IH (fund g a) Hc' Ht Hl) as [Hv Hge].
  split; [exact Hv|]. intros H. apply Hge, Hge', H.
Qed.

(** Writing a sum and reading it back before adding again loses nothing
    that shows in the next stored sum. *)
Lemma stored_add_stored x y :
  Num.stored (Num.add (Num.stored x) y) = Num.stored (Num.add x y).
Proof. destruct x as [[]|?| |? ? ?], y as [[]|?| |? ? ?]; reflexivity. Qed.

End Deposits.

(** On an existing goal, two successive deposits [a1] then [a2] leave the
    binary64 sum (initial + [a1]) + [a2] as current amount.  Along any
    sequence of positive deposits (finite Numbers above zero, the amounts of
    the goal being well-formed Numbers), the goal is completed after the
    n-th deposit exactly when the stored current amount has been greater
    than or equal to the target after one of the first n deposits: once
    true, the flag stays true. *)
Lemma updateSavingGoal_accumulates id s goal :
  savingGoals s !! id = Some goal →
  (∀ a1 a2, ∃ g2,
     savingGoals (deposits id [a1; a2] s) !! id = Some g2 ∧
     currentAmount g2 = Num.stored (Num.add (Num.add (currentAmount goal) a1) a2)) ∧
  (Num.valid (currentAmount goal) = true → Num.valid (targetAmount goal) = true →
   ∀ amounts, Forall positive_amount amounts →
   ∀ n, (1 ≤ n ≤ length amounts)%nat →
   ∃ gn,
     savingGoals (deposits id (take n amounts) s) !! id = Some gn ∧
     (completed gn = true ↔
      ∃ j gj, (1 ≤ j ≤ n)%nat ∧
              savingGoals (deposits id (take j amounts) s) !! id = Some gj ∧
              Num.geb (currentAmount gj) (targetAmount goal) = true)).
Proof.
  intros Hgoal. split.
  - intros a1 a2. exists (funded goal [a1; a2]).
    split; [now apply deposits_lookup|].
    simpl. apply stored_add_stored.
  - intros Hc Ht amounts Hpos n [Hn1 Hn2].
    exists (funded goal (take n amounts)). split; [now apply deposits_lookup|].
    assert (take n amounts ≠ []) as Hne.
    { intros E. apply (f_equal length) in E. rewrite length_take in E. simpl in E. lia. }
    rewrite funded_completed by done. split.
    + intros Hge. exists n, (funded goal (take n amounts)).
      split; [lia|]. split; [now apply deposits_lookup | done].
    + intros (j & gj & [Hj1 Hj2] & Hgj & Hge).
      rewrite (deposits_lookup id _ s goal Hgoal) in Hgj. inversion Hgj; subst gj.
      assert (take n amounts = take j amounts ++ drop j (take n amounts)) as Hsplit.
      { rewrite <- (take_drop j (take n amounts)) at 1. f_equal.
        rewrite take_take. f_equal. lia. }
      rewrite Hsplit. unfold funded at 1. rewrite foldl_app.
      fold (funded goal (take j amounts)).
      fold (funded (funded goal (take j amounts)) (drop j (take n amounts))).
      destruct (funded_keeps (take j amounts) goal Hc Ht) as [Hvj _].
      { now apply Forall_take. }
      destruct (funded_keeps (drop j (take n amounts)) (funded goal (take j amounts)))
        as [_ Hstay]; try done.
      { now rewrite funded_target. }
      { now apply Forall_drop, Forall_take. }
      rewrite funded_target in Hstay. now apply Hstay.
Qed.

Lemma updateSavingGoal_accumulates_witness :
  (∃ g2,
     savingGoals (deposits 3 [Num.decimal 2000 2; Num.decimal 3000 2] one_goal) !! 3
       = Some g2 ∧
     currentAmount g2
       = Num.stored (Num.add (Num.add (currentAmount holiday) (Num.decimal 2000 2))
                             (Num.decimal 3000 2))) ∧
  (∃ gn,
     savingGoals (deposits 3 (take 3 three_deposits) one_goal) !! 3 = Some gn ∧
     (completed gn = true ↔
      ∃ j gj, (1 ≤ j ≤ 3)%nat ∧
              savingGoals (deposits 3 (take j three_deposits) one_goal) !! 3 = Some gj ∧
              Num.geb (currentAmount gj) (targetAmount holiday) = true)).
Proof.
  destruct (updateSavingGoal_accumulates 3 one_goal holiday) as [Htwo Hseq].
  - reflexivity.
  - split.
    + apply Htwo.
    + apply Hseq.
      * reflexivity.
      * reflexivity.
      * repeat constructor.
      * simpl. lia.
Defined.

(** Deposits of 20, 30 and 10 on the goal at 450 of 500: the flag is false
    after the first, true after the second and after the third. *)
Example three_deposits_flags :
  Forall positive_amount three_deposits ∧
  (completed <$> savingGoals (deposits 3 (take 1 three_deposits) one_goal) !! 3) = Some false ∧
  (completed <$> savingGoals (deposits 3 (take 2 three_deposits) one_goal) !! 3) = Some true ∧
  (completed <$> savingGoals (deposits 3 (take 3 three_deposits) one_goal) !! 3) = Some true ∧
  (currentAmount <$> savingGoals (deposits 3 three_deposits one_goal) !! 3)
    = Some (Num.of_Z 510).
Proof. split; [repeat constructor|]. repeat split. Qed.

(** ** Decimal amounts in binary arithmetic *)

(** C1 fails on the code.  A transfer of 0.1 from an account holding 0.3 to
    an account holding 0.1 returns, and its two rows carry 0.1; the target
    is left with what a column holding 0.2 reads as, but the source is left
    with 7205759403792793 * 2^-55, which is written 0.19999999999999998 and
    is less than what a column holding 0.2 = 0.3 - 0.1 reads as. *)
Theorem transferFunds_source_not_decimal :
  balance <$> bankAccounts small_change !! 8 = Some (Num.decimal 3 1) ∧
  balance <$> bankAccounts small_change !! 7 = Some (Num.decimal 1 1) ∧
  Num.geb (Num.decimal 3 1) (amount send_one_tenth) = true ∧
  ∃ rows s',
    transferFunds 1000 send_one_tenth small_change = (Returned rows, s') ∧
    tx_amount rows.1 = Num.decimal 1 1 ∧
    tx_amount rows.2 = Num.decimal 1 1 ∧
    balance <$> bankAccounts s' !! 7 = Some (Num.decimal 2 1) ∧
    balance <$> bankAccounts s' !! 8 = Some (S754_finite false 7205759403792793 (-55)) ∧
    S754_finite false 7205759403792793 (-55) ≠ Num.decimal 2 1 ∧
    Num.ltb (S754_finite false 7205759403792793 (-55)) (Num.decimal 2 1) = true.
Proof.
  repeat split. eexists _, _. repeat split. discriminate.
Qed.

(** C6 fails on the code.  On a goal with target 0.8 and current amount 0.1,
    a deposit of 0.7 returns a goal whose current amount is
    7205759403792793 * 2^-53, which is written 0.7999999999999999 and is
    less than what a column holding 0.8 = 0.1 + 0.7 reads as, and the goal
    is not completed although 0.8 is greater than or equal to its target. *)
Theorem updateSavingGoal_misses_target :
  savingGoals small_change !! 3 = Some eight_tenths_goal ∧
  currentAmount eight_tenths_goal = Num.decimal 1 1 ∧
  targetAmount eight_tenths_goal = Num.decimal 8 1 ∧
  ∃ updatedGoal s',
    updateSavingGoal 3 (Num.decimal 7 1) small_change = (Returned (Some updatedGoal), s') ∧
    currentAmount updatedGoal = S754_finite false 7205759403792793 (-53) ∧
    currentAmount updatedGoal ≠ Num.decimal 8 1 ∧
    Num.ltb (currentAmount updatedGoal) (Num.decimal 8 1) = true ∧
    completed updatedGoal = false ∧
    Num.geb (Num.decimal 8 1) (targetAmount updatedGoal) = true.
Proof.
  repeat split. eexists _, _. repeat split. discriminate.
Qed.

(** C7 fails on the code.  On a goal with target 0.8 and nothing saved,
    deposits of 0.1 and then 0.7 leave the current amount at
    7205759403792793 * 2^-53, written 0.7999999999999999, and not at what a
    column holding 0.8 = 0 + 0.1 + 0.7 reads as; the goal is not completed
    after the second deposit although the cumulative amount 0.8 is greater
    than or equal to the target. *)
Theorem deposits_fall_short_of_target :
  savingGoals empty_stamp !! 3
    = Some (mkSavingGoal 1 "Stamp" (Num.decimal 8 1) Num.zero None false) ∧
  Forall positive_amount [Num.decimal 1 1; Num.decimal 7 1] ∧
  savingGoals (deposits 3 [Num.decimal 1 1] empty_stamp) !! 3
    = Some (mkSavingGoal 1 "Stamp" (Num.decimal 8 1) (Num.decimal 1 1) None false) ∧
  savingGoals (deposits 3 [Num.decimal 1 1; Num.decimal 7 1] empty_stamp) !! 3
    = Some (mkSavingGoal 1 "Stamp" (Num.decimal 8 1)
              (S754_finite false 7205759403792793 (-53)) None false) ∧
  S754_finite false 7205759403792793 (-53) ≠ Num.decimal 8 1 ∧
  Num.ltb (S754_finite false 7205759403792793 (-53)) (Num.decimal 8 1) = true ∧
  Num.geb (Num.decimal 8 1) (Num.decimal 8 1) = true.
Proof.
  repeat split; try discriminate. repeat constructor.
Qed.

(** C8 fails on the code.  A credit of 0.2 on a balance of 0.1 stores
    5404319552844596 * 2^-54, which is 0.30000000000000004 and is not what a
    column holding 0.3 reads as; a transfer of 0.1 out of 0.3 leaves
    7205759403792793 * 2^-55, which is 0.19999999999999998 and not 0.2; a
    deposit of 0.7 on a goal at 0.1 of 0.8 stores 0.7999999999999999 and the
    goal is not completed. *)
Theorem stored_amounts_are_binary_sums :
  (balance <$> bankAccounts (createTransaction 1000 credit_two_tenths small_change).2 !! 7
     = Some (S754_finite false 5404319552844596 (-54)) ∧
   S754_finite false 5404319552844596 (-54) ≠ Num.decimal 3 1) ∧
  (balance <$> bankAccounts (transferFunds 1000 send_one_tenth small_change).2 !! 8
     = Some (S754_finite false 7205759403792793 (-55)) ∧
   S754_finite false 7205759403792793 (-55) ≠ Num.decimal 2 1) ∧
  (savingGoals (updateSavingGoal 3 (Num.decimal 7 1) small_change).2 !! 3
     = Some (mkSavingGoal 1 "Stamp" (Num.decimal 8 1)
               (S754_finite false 7205759403792793 (-53)) None false) ∧
   S754_finite false 7205759403792793 (-53) ≠ Num.decimal 8 1).
Proof. repeat split; discriminate. Qed.

(** * Further properties *)

(** ** The engine: errors, what is left untouched, the ledger *)

(** A transfer naming an account that does not exist throws "One or both
    accounts do not exist" and leaves the store as it was. *)
Theorem transferFunds_missing_account now td s :
  bankAccounts s !! fromAccountId td = None ∨ bankAccounts s !! toAccountId td = None →
  transferFunds now td s = (Thrown "One or both accounts do not exist", s).
Proof.
  unfold transferFunds, transaction, transferFunds_body, bind, select_account.
  intros [H|H]; rewrite H; [done|].
  now destruct (bankAccounts s !! fromAccountId td).
Qed.

Lemma transferFunds_missing_account_witness :
  transferFunds 1000 ghost_transfer two_accounts
    = (Thrown "One or both accounts do not exist", two_accounts).
Proof.
  apply (transferFunds_missing_account 1000 ghost_transfer two_accounts).
  right. reflexivity.
Defined.

(** The three outcomes of a transfer: it commits, or it throws one of its
    two errors and the store is the one before. *)
Lemma transferFunds_cases now td s :
  (∃ src tgt,
     bankAccounts s !! fromAccountId td = Some src ∧
     bankAccounts s !! toAccountId td = Some tgt ∧
     Num.ltb (balance src) (amount td) = false ∧
     transferFunds now td s =
       (Returned (debit_row now td s, credit_row now td src s),
        mkStore
          (alter (set_balance (Num.add (balance tgt) (amount td))) (toAccountId td)
             (alter (set_balance (Num.sub (balance src) (amount td))) (fromAccountId td)
                (bankAccounts s)))
          ((transactions s ++ [debit_row now td s]) ++ [credit_row now td src s])
          (transactions_seq s + 1 + 1)
          (savingGoals s) (journalEntries s) (aiAdvices s))) ∨
  (∃ msg, transferFunds now td s = (Thrown msg, s) ∧
          (msg = "One or both accounts do not exist" →
           bankAccounts s !! fromAccountId td = None ∨
           bankAccounts s !! toAccountId td = None)).
Proof.
  destruct (bankAccounts s !! fromAccountId td) as [src|] eqn:Hsrc.
  - destruct (bankAccounts s !! toAccountId td) as [tgt|] eqn:Htgt.
    + destruct (Num.ltb (balance src) (amount td)) eqn:Hlt.
      * right. exists "Insufficient funds for transfer". split; [|done].
        unfold transferFunds, transaction, transferFunds_body, bind, select_account.
        now rewrite Hsrc, Htgt, Hlt.
      * left. exists src, tgt. repeat split; try done.
        now apply transferFunds_commits.
    + right. exists "One or both accounts do not exist". split; [|now right].
      unfold transferFunds, transaction, transferFunds_body, bind, select_account.
      now rewrite Hsrc, Htgt.
  - right. exists "One or both accounts do not exist". split; [|now left].
    unfold transferFunds, transaction, transferFunds_body, bind, select_account.
    now rewrite Hsrc.
Qed.

Lemma lookup_alter_set_balance (m : gmap Z BankAccount) id b i a' :
  alter (set_balance b) id m !! i = Some a' →
  ∃ a, m !! i = Some a ∧ same_account a a'.
Proof.
  destruct (decide (id = i)) as [->|Hne].
  - rewrite lookup_alter_eq. destruct (m !! i) as [a|]; [|done].
    intros [= <-]. now exists a.
  - rewrite lookup_alter_ne by done. intros H. now exists a'.
Qed.

Lemma same_account_trans a b c : same_account a b → same_account b c → same_account a c.
Proof. unfold same_account. intros (?&?&?&?) (?&?&?&?). repeat split; congruence. Qed.

(** Whatever its outcome, a transfer creates and deletes no account, leaves
    every account other than its two untouched, changes nothing but the
    balance of those two, and does not touch the goals, the journal or the
    advice. *)
Theorem transferFunds_frame now td s :
  let s' := (transferFunds now td s).2 in
  dom (bankAccounts s') = dom (bankAccounts s) ∧
  (∀ id, id ≠ fromAccountId td → id ≠ toAccountId td →
         bankAccounts s' !! id = bankAccounts s !! id) ∧
  (∀ id a', bankAccounts s' !! id = Some a' →
            ∃ a, bankAccounts s !! id = Some a ∧ same_account a a') ∧
  savingGoals s' = savingGoals s ∧
  journalEntries s' = journalEntries s ∧
  aiAdvices s' = aiAdvices s.
Proof.
  destruct (transferFunds_cases now td s)
    as [(src & tgt & _ & _ & _ & ->)|(msg & -> & _)]; simpl.
  - repeat split.
    + now rewrite !dom_alter_L.
    + intros id H1 H2. now rewrite !lookup_alter_ne.
    + intros id a' (b & Hb & Hba)%lookup_alter_set_balance.
      apply lookup_alter_set_balance in Hb as (a & Ha & Hab).
      exists a. split; [done|]. eapply same_account_trans; eauto.
  - repeat split; try done. intros id a' H. exists a'. now repeat split.
Qed.

Lemma ledger_ok_push s row accounts goals journal advices :
  ledger_ok s →
  tx_id row = transactions_seq s →
  ledger_ok (mkStore accounts (transactions s ++ [row]) (transactions_seq s + 1)
                     goals journal advices).
Proof.
  intros [Hnd Hlt] Hid. split; simpl.
  - rewrite fmap_app. apply NoDup_app. repeat split; [done| |apply NoDup_singleton].
    intros x (t & Hx & Ht)%list_elem_of_fmap Hrow%list_elem_of_singleton.
    rewrite Forall_forall in Hlt. specialize (Hlt _ Ht). simpl in *. lia.
  - apply Forall_app. split.
    + eapply Forall_impl; [exact Hlt|]. simpl. intros; lia.
    + repeat constructor. lia.
Qed.

(** The ledger is append-only and its ids stay distinct: [createTransaction]
    and [transferFunds] keep every row that was there, in place, and give
    the rows they add ids no other row has. *)
Theorem ledger_append_only now ins td s :
  ledger_ok s →
  (ledger_ok (createTransaction now ins s).2 ∧
   transactions s `prefix_of` transactions (createTransaction now ins s).2) ∧
  (ledger_ok (transferFunds now td s).2 ∧
   transactions s `prefix_of` transactions (transferFunds now td s).2).
Proof.
  intros Hok. split.
  - rewrite createTransaction_returns. simpl. split; [|now apply prefix_app_r].
    now apply ledger_ok_push.
  - destruct (transferFunds_cases now td s)
      as [(src & tgt & _ & _ & _ & ->)|(msg & -> & _)]; simpl; [|done].
    split; [|rewrite <- app_assoc; now apply prefix_app_r].
    apply (ledger_ok_push
             (mkStore (bankAccounts s) (transactions s ++ [debit_row now td s])
                      (transactions_seq s + 1) (savingGoals s) (journalEntries s)
                      (aiAdvices s))); [|reflexivity].
    now apply ledger_ok_push.
Qed.

Lemma ledger_append_only_witness :
  (ledger_ok (createTransaction 1000 negative_credit two_rows).2 ∧
   transactions two_rows
     `prefix_of` transactions (createTransaction 1000 negative_credit two_rows).2) ∧
  (ledger_ok (transferFunds 1000 rent two_rows).2 ∧
   transactions two_rows
     `prefix_of` transactions (transferFunds 1000 rent two_rows).2).
Proof.
  apply (ledger_append_only 1000 negative_credit rent two_rows).
  split.
  - apply NoDup_cons. split; [|apply NoDup_singleton].
    intros H. apply list_elem_of_singleton in H. discriminate.
  - repeat constructor.
Defined.

Lemma filter_none {A} (P : A → Prop) `{!∀ x, Decision (P x)} (l : list A) :
  Forall (λ x, ¬ P x) l → filter P l = [].
Proof.
  induction 1 as [|x l Hx Hl IH]; [done|].
  now rewrite filter_cons, decide_False.
Qed.

(** The row [createTransaction] returns can be read back by its id. *)
Theorem createTransaction_getTransaction now ins s :
  ledger_ok s →
  ∃ row s',
    createTransaction now ins s = (Returned row, s') ∧
    getTransaction (tx_id row) s' = Some row ∧
    ∀ id, id ≠ tx_id row → getTransaction id s' = getTransaction id s.
Proof.
  intros [Hnd Hlt]. eexists _, _. split; [apply createTransaction_returns|].
  unfold getTransaction. simpl.
  assert (filter (λ t, tx_id t = transactions_seq s) (transactions s) = []) as Hnone.
  { apply filter_none. eapply Forall_impl; [exact Hlt|]. simpl. intros; lia. }
  split.
  - rewrite filter_app, Hnone. simpl.
    rewrite filter_cons, decide_True by done. done.
  - intros id Hid. rewrite filter_app, filter_cons, decide_False by done.
    now rewrite filter_nil, app_nil_r.
Qed.

Lemma createTransaction_getTransaction_witness :
  ∃ row s',
    createTransaction 1000 negative_credit one_account = (Returned row, s') ∧
    getTransaction (tx_id row) s' = Some row ∧
    ∀ id, id ≠ tx_id row → getTransaction id s' = getTransaction id one_account.
Proof.
  apply (createTransaction_getTransaction 1000 negative_credit one_account).
  split; constructor.
Defined.

(** [createTransaction] creates and deletes no account, leaves every account
    other than the one it names untouched, changes nothing but the balance
    of that one, and does not touch the goals, the journal or the advice. *)
Theorem createTransaction_frame now ins s :
  let s' := (createTransaction now ins s).2 in
  dom (bankAccounts s') = dom (bankAccounts s) ∧
  (∀ id, id ≠ ins_accountId ins → bankAccounts s' !! id = bankAccounts s !! id) ∧
  (∀ id a', bankAccounts s' !! id = Some a' →
            ∃ a, bankAccounts s !! id = Some a ∧ same_account a a') ∧
  savingGoals s' = savingGoals s ∧
  journalEntries s' = journalEntries s ∧
  aiAdvices s' = aiAdvices s.
Proof.
  rewrite createTransaction_returns. simpl.
  destruct (bankAccounts s !! ins_accountId ins) as [acct|] eqn:Hacct.
  - repeat split.
    + now rewrite dom_alter_L.
    + intros id Hne. now rewrite lookup_alter_ne.
    + intros id a'. apply lookup_alter_set_balance.
  - repeat split; try done. intros id a' H. exists a'. now repeat split.
Qed.

(** A second transfer with the same arguments is a movement of its own: when
    the source still holds the amount after the first, both return, the
    ledger gains four rows with four different ids, and the balances are
    those the code computes by subtracting the amount from the source twice
    and adding it to the target twice, each result written and read back. *)
Theorem transferFunds_twice now td s src tgt :
  bankAccounts s !! fromAccountId td = Some src →
  bankAccounts s !! toAccountId td = Some tgt →
  fromAccountId td ≠ toAccountId td →
  Num.geb (balance src) (amount td) = true →
  Num.geb (Num.stored (Num.sub (balance src) (amount td))) (amount td) = true →
  ∃ rows1 s1 rows2 s2,
    transferFunds now td s = (Returned rows1, s1) ∧
    transferFunds now td s1 = (Returned rows2, s2) ∧
    transactions s2 = transactions s ++ [rows1.1; rows1.2; rows2.1; rows2.2] ∧
    NoDup (tx_id <$> [rows1.1; rows1.2; rows2.1; rows2.2]) ∧
    balance <$> bankAccounts s2 !! fromAccountId td
      = Some (Num.stored (Num.sub (Num.stored (Num.sub (balance src) (amount td)))
                                  (amount td))) ∧
    balance <$> bankAccounts s2 !! toAccountId td
      = Some (Num.stored (Num.add (Num.stored (Num.add (balance tgt) (amount td)))
                                  (amount td))).
Proof.
  intros Hsrc Htgt Hne Hge Hge2.
  pose proof (transferFunds_commits now td s src tgt Hsrc Htgt (geb_not_ltb _ _ Hge)) as H1.
  set (s1 := (transferFunds now td s).2).
  assert (bankAccounts s1 !! fromAccountId td
          = Some (set_balance (Num.sub (balance src) (amount td)) src)) as Hsrc1.
  { unfold s1. rewrite H1. simpl. rewrite lookup_alter_ne by congruence.
    now apply lookup_set_balance. }
  assert (bankAccounts s1 !! toAccountId td
          = Some (set_balance (Num.add (balance tgt) (amount td)) tgt)) as Htgt1.
  { unfold s1. rewrite H1. simpl. apply lookup_set_balance.
    now rewrite lookup_alter_ne. }
  pose proof (transferFunds_commits now td s1 _ _ Hsrc1 Htgt1 (geb_not_ltb _ _ Hge2)) as H2.
  eexists _, s1, _, _. split; [unfold s1; now rewrite H1|]. split; [exact H2|].
  simpl. repeat split.
  - unfold s1. rewrite H1. simpl. now rewrite <- !app_assoc.
  - unfold s1. rewrite H1. simpl.
    rewrite !NoDup_cons, !not_elem_of_cons. repeat split; try lia;
      try apply not_elem_of_nil. constructor.
  - rewrite lookup_alter_ne by congruence. now rewrite (lookup_set_balance _ _ _ _ Hsrc1).
  - rewrite (lookup_set_balance _ _ (set_balance (Num.add (balance tgt) (amount td)) tgt));
      [done|]. now rewrite lookup_alter_ne.
Qed.

Lemma transferFunds_twice_witness :
  ∃ rows1 s1 rows2 s2,
    transferFunds 1000 rent two_accounts = (Returned rows1, s1) ∧
    transferFunds 1000 rent s1 = (Returned rows2, s2) ∧
    transactions s2 = transactions two_accounts ++ [rows1.1; rows1.2; rows2.1; rows2.2] ∧
    NoDup (tx_id <$> [rows1.1; rows1.2; rows2.1; rows2.2]) ∧
    balance <$> bankAccounts s2 !! fromAccountId rent
      = Some (Num.stored (Num.sub (Num.stored (Num.sub (balance account_A) (amount rent)))
                                  (amount rent))) ∧
    balance <$> bankAccounts s2 !! toAccountId rent
      = Some (Num.stored (Num.add (Num.stored (Num.add (balance account_B) (amount rent)))
                                  (amount rent))).
Proof.
  apply (transferFunds_twice 1000 rent two_accounts account_A account_B).
  - reflexivity.
  - reflexivity.
  - discriminate.
  - reflexivity.
  - reflexivity.
Defined.

(** ** Goals and balances: missing rows and what is left untouched *)

(** A deposit on a goal that does not exist returns [undefined] and changes
    nothing. *)
Theorem updateSavingGoal_missing id amount s :
  savingGoals s !! id = None →
  updateSavingGoal id amount s = (Returned None, s).
Proof.
  intros H. unfold updateSavingGoal, transaction, updateSavingGoal_body, bind, select_goal.
  now rewrite H.
Qed.

Lemma updateSavingGoal_missing_witness :
  updateSavingGoal 4 (Num.of_Z 10) one_goal = (Returned None, one_goal).
Proof. apply (updateSavingGoal_missing 4 (Num.of_Z 10) one_goal). reflexivity. Defined.

(** A deposit never fails, changes no other goal, keeps the owner, the
    name, the target and the deadline of the goal it funds, and touches
    neither the accounts nor the ledger. *)
Theorem updateSavingGoal_frame id amount s :
  ∃ result s',
    updateSavingGoal id amount s = (Returned result, s') ∧
    (∀ i, i ≠ id → savingGoals s' !! i = savingGoals s !! i) ∧
    dom (savingGoals s') = dom (savingGoals s) ∧
    (∀ g', savingGoals s' !! id = Some g' →
           ∃ g, savingGoals s !! id = Some g ∧
                goal_userId g' = goal_userId g ∧ goal_name g' = goal_name g ∧
                targetAmount g' = targetAmount g ∧ deadline g' = deadline g) ∧
    bankAccounts s' = bankAccounts s ∧
    transactions s' = transactions s ∧
    transactions_seq s' = transactions_seq s.
Proof.
  destruct (savingGoals s !! id) as [goal|] eqn:Hgoal.
  - destruct (updateSavingGoal_existing id amount s goal Hgoal) as [Hrun _].
    cbn zeta in Hrun. eexists _, _. split; [exact Hrun|]. simpl. repeat split.
    + intros i Hne. now rewrite lookup_alter_ne.
    + now rewrite dom_alter_L.
    + intros g'. rewrite lookup_alter_eq, Hgoal. intros [= <-]. now exists goal.
  - exists None, s. split.
    + unfold updateSavingGoal, transaction, updateSavingGoal_body, bind, select_goal.
      now rewrite Hgoal.
    + repeat split; try done. intros g' H. congruence.
Qed.

(** [updateBankAccountBalance] writes the balance of the account it names
    and returns the updated row; it returns [undefined] and changes nothing
    when the account does not exist; no other account changes. *)
Theorem updateBankAccountBalance_spec id b s :
  let '(result, s') := updateBankAccountBalance id b s in
  match bankAccounts s !! id with
  | Some a =>
      result = Some (set_balance b a) ∧
      getBankAccount id s' = Some (set_balance b a) ∧
      balance (set_balance b a) = Num.stored b ∧
      same_account a (set_balance b a)
  | None => result = None ∧ s' = s
  end ∧
  (∀ i, i ≠ id → bankAccounts s' !! i = bankAccounts s !! i) ∧
  transactions s' = transactions s.
Proof.
  unfold updateBankAccountBalance, getBankAccount. simpl. split; [|split; [|done]].
  - rewrite lookup_alter_eq. destruct (bankAccounts s !! id) as [a|] eqn:Ha; simpl.
    + now repeat split.
    + split; [done|]. destruct s as [accounts ? ? ? ? ?]. unfold set_bankAccounts. simpl in *.
      f_equal. apply map_eq. intros i. destruct (decide (i = id)) as [->|Hne].
      * now rewrite lookup_alter_eq, Ha.
      * now rewrite lookup_alter_ne.
  - intros i Hne. now rewrite lookup_alter_ne.
Qed.

(** ** What the read helpers return *)

Lemma NoDup_fmap_filter {A B} (f : A → B) (P : A → Prop) `{!∀ x, Decision (P x)}
    (l : list A) :
  NoDup (f <$> l) → NoDup (f <$> filter P l).
Proof.
  induction l as [|x l IH]; [done|].
  rewrite fmap_cons, NoDup_cons. intros [Hx Hnd]. rewrite filter_cons.
  destruct (decide (P x)); [|now apply IH].
  rewrite fmap_cons. apply NoDup_cons. split; [|now apply IH].
  intros (y & Hy & Hin%list_elem_of_filter)%list_elem_of_fmap.
  apply Hx, list_elem_of_fmap. exists y. tauto.
Qed.

Lemma elem_of_getBankAccountsByUserId userId s id a :
  (id, a) ∈ getBankAccountsByUserId userId s ↔
  bankAccounts s !! id = Some a ∧ acc_userId a = userId.
Proof.
  unfold getBankAccountsByUserId.
  rewrite list_elem_of_filter, elem_of_map_to_list. simpl. tauto.
Qed.

Lemma NoDup_getBankAccountsByUserId userId s :
  NoDup (getBankAccountsByUserId userId s).*1.
Proof. apply NoDup_fmap_filter, NoDup_fst_map_to_list. Qed.

(** [getBankAccountsByUserId] lists exactly the accounts of the user, each
    once. *)
Theorem getBankAccountsByUserId_spec userId s :
  (∀ id a, (id, a) ∈ getBankAccountsByUserId userId s ↔
           bankAccounts s !! id = Some a ∧ acc_userId a = userId) ∧
  NoDup (getBankAccountsByUserId userId s).*1.
Proof.
  unfold getBankAccountsByUserId. split.
  - intros id a. rewrite list_elem_of_filter, elem_of_map_to_list. simpl. tauto.
  - apply NoDup_fmap_filter, NoDup_fst_map_to_list.
Qed.

Lemma some_account_owns userId id s :
  some_account id (getBankAccountsByUserId userId s) = true ↔ owns userId id s.
Proof.
  unfold some_account, owns. rewrite existsb_exists. split.
  - intros ([i a] & Hin & Hid). apply bool_decide_eq_true in Hid. simpl in Hid. subst i.
    apply list_elem_of_In, elem_of_getBankAccountsByUserId in Hin. eauto.
  - intros (a & Ha & Hu). exists (id, a). split.
    + apply list_elem_of_In, elem_of_getBankAccountsByUserId. done.
    + now apply bool_decide_eq_true.
Qed.

Lemma foldl_app_concat {A B} (f : B → list A) (l : list B) (acc : list A) :
  foldl (λ all x, all ++ f x) acc l = acc ++ concat (f <$> l).
Proof.
  revert acc. induction l as [|x l IH]; intros acc; simpl.
  - now rewrite app_nil_r.
  - now rewrite IH, app_assoc.
Qed.

Lemma filter_elem_of_cons {A} (f : A → Z) k ks (l : list A) :
  k ∉ ks →
  filter (λ t, f t ∈ k :: ks) l ≡ₚ filter (λ t, f t = k) l ++ filter (λ t, f t ∈ ks) l.
Proof.
  intros Hk. induction l as [|t l IH]; [done|].
  rewrite !filter_cons.
  destruct (decide (f t = k)) as [Ht|Ht].
  - rewrite decide_True by (rewrite Ht; left).
    rewrite (decide_False (P := f t ∈ ks)) by now rewrite Ht.
    simpl. now rewrite IH.
  - destruct (decide (f t ∈ ks)) as [Hin|Hin].
    + rewrite decide_True by now right.
      rewrite IH. apply Permutation_middle.
    + rewrite decide_False; [done|]. intros [?|?]%elem_of_cons; contradiction.
Qed.

Lemma concat_filter_keys {A} (f : A → Z) (keys : list Z) (l : list A) :
  NoDup keys →
  concat ((λ k, filter (λ t, f t = k) l) <$> keys) ≡ₚ filter (λ t, f t ∈ keys) l.
Proof.
  induction 1 as [|k ks Hk Hnd IH]; simpl.
  - symmetry. apply Permutation_nil_r. apply filter_none, Forall_forall.
    intros t _ Ht. by apply elem_of_nil in Ht.
  - now rewrite IH, filter_elem_of_cons.
Qed.

Lemma concat_account_transactions s (l : list (Z * BankAccount)) :
  concat ((λ account, getTransactionsByAccountId account.1 s) <$> l)
    ≡ₚ concat ((λ k, filter (λ t, tx_accountId t = k) (transactions s)) <$> l.*1).
Proof.
  induction l as [|x l IH]; [done|].
  simpl. apply Permutation_app; [apply (Array_sort_perm tx_date)|apply IH].
Qed.

Lemma getTransactionsByAccountId_perm accountId s :
  getTransactionsByAccountId accountId s
    ≡ₚ filter (λ t, tx_accountId t = accountId) (transactions s).
Proof. apply (Array_sort_perm tx_date). Qed.

Lemma getTransactionsByUserId_perm userId s :
  getTransactionsByUserId userId s
    ≡ₚ filter (λ t, acc_userId <$> bankAccounts s !! tx_accountId t = Some userId)
              (transactions s).
Proof.
  unfold getTransactionsByUserId.
  pose proof (elem_of_getBankAccountsByUserId userId s) as Hin.
  pose proof (NoDup_getBankAccountsByUserId userId s) as Hnd.
  assert (∀ t, tx_accountId t ∈ (getBankAccountsByUserId userId s).*1 ↔
               acc_userId <$> bankAccounts s !! tx_accountId t = Some userId) as Hiff.
  { intros t. rewrite list_elem_of_fmap. split.
    - intros ([id a] & Hid & (Ha & Hu)%Hin). simpl in Hid. rewrite Hid, Ha. simpl.
      congruence.
    - destruct (bankAccounts s !! tx_accountId t) as [a|] eqn:Ha; [|done].
      intros [= Hu]. exists (tx_accountId t, a). split; [done|]. now apply Hin. }
  rewrite <- (list_filter_iff
                (λ t, tx_accountId t ∈ (getBankAccountsByUserId userId s).*1)
                (λ t, acc_userId <$> bankAccounts s !! tx_accountId t = Some userId)
                (transactions s) Hiff).
  case_decide as Hlen.
  - apply nil_length_inv in Hlen. rewrite Hlen. simpl.
    symmetry. apply Permutation_nil_r. apply filter_none, Forall_forall.
    intros t _ Ht. by apply elem_of_nil in Ht.
  - rewrite (Array_sort_perm tx_date), foldl_app_concat. simpl.
    rewrite <- (concat_filter_keys tx_accountId _ _ Hnd).
    apply concat_account_transactions.
Qed.

(** The transactions listed for an account are exactly the ledger rows of
    that account, each as often as the ledger holds it; those listed for a
    user are exactly the rows of the accounts that user owns. *)
Theorem getTransactions_scope accountId userId s :
  getTransactionsByAccountId accountId s
    ≡ₚ filter (λ t, tx_accountId t = accountId) (transactions s) ∧
  getTransactionsByUserId userId s
    ≡ₚ filter (λ t, acc_userId <$> bankAccounts s !! tx_accountId t = Some userId)
              (transactions s).
Proof.
  split; [apply getTransactionsByAccountId_perm|apply getTransactionsByUserId_perm].
Qed.

Lemma orderBy_desc_perm {A} (date : A → Z) (rows : list A) :
  orderBy_desc date rows ≡ₚ rows.
Proof. apply (Array_sort_perm date). Qed.

(** A row newer than all the others is listed first. *)
Lemma orderBy_desc_newest {A} (date : A → Z) (rows : list A) (r : A) :
  Forall (λ x, date x < date r) rows →
  orderBy_desc date (rows ++ [r]) = r :: orderBy_desc date rows.
Proof.
  intros Hnew. unfold orderBy_desc, Array_sort. rewrite foldr_app. simpl.
  induction Hnew as [|x rows Hx Hrows IH]; [done|].
  simpl. rewrite IH. simpl.
  destruct (Z.ltb_spec 0 (date r - date x)); [done|lia].
Qed.

(** After [createTransaction] the account's list holds the new row besides
    the rows it held, the lists of the other accounts are the same, and a
    row later than every row of the ledger comes first in its account's
    list. *)
Theorem createTransaction_listed now ins s :
  let row := new_row now ins s in
  let s' := (createTransaction now ins s).2 in
  getTransactionsByAccountId (ins_accountId ins) s'
    ≡ₚ row :: getTransactionsByAccountId (ins_accountId ins) s ∧
  (∀ accountId, accountId ≠ ins_accountId ins →
     getTransactionsByAccountId accountId s' = getTransactionsByAccountId accountId s) ∧
  (Forall (λ t, tx_date t < now) (transactions s) →
   getTransactionsByAccountId (ins_accountId ins) s'
     = row :: getTransactionsByAccountId (ins_accountId ins) s).
Proof.
  intros row s'. unfold s'. rewrite createTransaction_returns. fold row.
  unfold getTransactionsByAccountId. simpl. repeat split.
  - rewrite filter_app, filter_cons, decide_True, filter_nil by done.
    rewrite !orderBy_desc_perm. symmetry. apply Permutation_cons_append.
  - intros accountId Hne.
    rewrite filter_app, filter_cons, decide_False, filter_nil, app_nil_r; [done|].
    simpl. congruence.
  - intros Hnew. rewrite filter_app, filter_cons, decide_True, filter_nil by done.
    apply orderBy_desc_newest. apply Forall_forall.
    intros t [_ Ht]%list_elem_of_filter. rewrite Forall_forall in Hnew. now apply Hnew.
Qed.

(** ** Creating rows *)

Lemma lookup_fresh {A} (m : gmap Z A) (next : Z) :
  (∀ id, is_Some (m !! id) → id < next) → m !! next = None.
Proof.
  intros H. destruct (m !! next) eqn:E; [|done].
  specialize (H next ltac:(eauto)). lia.
Qed.

(** On a database whose sequences are ahead of its ids, [createBankAccount]
    does not fail: the account gets an id no account had, can be read back
    under it, belongs to the user of the insert and holds the balance of
    the insert, 0 when there is none; the other accounts and the ledger are
    as before, and the sequences stay ahead. *)
Theorem createBankAccount_spec insertAccount d :
  sequences_fresh d →
  ∃ id account d',
    createBankAccount insertAccount d = (Returned (id, account), d') ∧
    bankAccounts (store d) !! id = None ∧
    getBankAccount id (store d') = Some account ∧
    (id, account) ∈ getBankAccountsByUserId (iba_userId insertAccount) (store d') ∧
    balance account = Num.stored (default Num.zero (iba_balance insertAccount)) ∧
    (∀ i, i ≠ id → bankAccounts (store d') !! i = bankAccounts (store d) !! i) ∧
    transactions (store d') = transactions (store d) ∧
    sequences_fresh d'.
Proof.
  intros (Hacc & Hgoal & Hje & Hadv & Hu).
  pose proof (lookup_fresh _ _ Hacc) as Hnone.
  unfold createBankAccount. rewrite Hnone.
  eexists _, _, _. split; [reflexivity|]. simpl. repeat split; try done.
  - unfold getBankAccount. simpl. apply lookup_insert_eq.
  - apply elem_of_getBankAccountsByUserId. simpl. split; [apply lookup_insert_eq|done].
  - intros i Hne. now apply lookup_insert_ne.
  - simpl. intros id [a Ha].
    destruct (decide (id = bankAccounts_seq d)) as [->|Hne]; [lia|].
    rewrite lookup_insert_ne in Ha by done. specialize (Hacc id ltac:(eauto)). lia.
Qed.

Lemma createBankAccount_spec_witness :
  ∃ id account d',
    createBankAccount new_savings bank = (Returned (id, account), d') ∧
    bankAccounts (store bank) !! id = None ∧
    getBankAccount id (store d') = Some account ∧
    (id, account) ∈ getBankAccountsByUserId (iba_userId new_savings) (store d') ∧
    balance account = Num.stored (default Num.zero (iba_balance new_savings)) ∧
    (∀ i, i ≠ id → bankAccounts (store d') !! i = bankAccounts (store bank) !! i) ∧
    transactions (store d') = transactions (store bank) ∧
    sequences_fresh d'.
Proof.
  apply (createBankAccount_spec new_savings bank).
  repeat split; try constructor; simpl.
  - intros id [a Ha]. destruct (decide (id = 1)) as [->|?]; [lia|].
    destruct (decide (id = 2)) as [->|?]; [lia|].
    now rewrite !lookup_insert_ne in Ha by done.
  - intros id [a Ha]. done.
Defined.

Lemma add_zero_stored a : Num.stored (Num.add Num.zero a) = Num.stored a.
Proof. now destruct a as [[]|?| |? ? ?]. Qed.

(** On a database whose sequences are ahead of its ids, [createSavingGoal]
    does not fail: the goal can be read back under its new id, starts at
    current amount 0 and not completed, and the other goals are as before.
    A first deposit then leaves the deposited amount as current amount and
    completes the goal exactly when that amount is greater than or equal to
    the target. *)
Theorem createSavingGoal_spec insertGoal d :
  sequences_fresh d →
  ∃ id goal d',
    createSavingGoal insertGoal d = (Returned (id, goal), d') ∧
    savingGoals (store d) !! id = None ∧
    getSavingGoal id (store d') = Some goal ∧
    goal_userId goal = isg_userId insertGoal ∧
    targetAmount goal = Num.stored (isg_targetAmount insertGoal) ∧
    currentAmount goal = Num.zero ∧
    completed goal = false ∧
    (∀ i, i ≠ id → savingGoals (store d') !! i = savingGoals (store d) !! i) ∧
    sequences_fresh d' ∧
    ∀ amount, ∃ updatedGoal s'',
      updateSavingGoal id amount (store d') = (Returned (Some updatedGoal), s'') ∧
      currentAmount updatedGoal = Num.stored amount ∧
      completed updatedGoal = Num.geb amount (isg_targetAmount insertGoal).
Proof.
  intros (Hacc & Hgoal & Hje & Hadv & Hu).
  pose proof (lookup_fresh _ _ Hgoal) as Hnone.
  unfold createSavingGoal. rewrite Hnone.
  set (goal := mkSavingGoal (isg_userId insertGoal) (isg_name insertGoal)
                 (Num.stored (isg_targetAmount insertGoal)) (Num.stored Num.zero)
                 (isg_deadline insertGoal) false).
  set (d' := set_store (set_savingGoals (insert (savingGoals_seq d) goal) (store d)) _).
  exists (savingGoals_seq d), goal, d'.
  assert (savingGoals (store d') !! savingGoals_seq d = Some goal) as Hnew
    by apply lookup_insert_eq.
  split; [reflexivity|]. repeat split; try done.
  - intros i Hne. simpl. now apply lookup_insert_ne.
  - simpl. intros id [a Ha].
    destruct (decide (id = savingGoals_seq d)) as [->|Hne]; [lia|].
    rewrite lookup_insert_ne in Ha by done. specialize (Hgoal id ltac:(eauto)). lia.
  - intros amount.
    destruct (updateSavingGoal_existing (savingGoals_seq d) amount (store d') goal Hnew)
      as [Hrun _].
    cbn zeta in Hrun. eexists _, _. split; [exact Hrun|]. simpl. split.
    + apply add_zero_stored.
    + rewrite <- (geb_stored_l (Num.add Num.zero amount)), add_zero_stored.
      rewrite geb_stored_l. unfold Num.geb, SFleb. now rewrite SFcompare_antisym,
        SFcompare_stored_r, <- SFcompare_antisym.
Qed.

Lemma createSavingGoal_spec_witness :
  ∃ id goal d',
    createSavingGoal new_goal bank = (Returned (id, goal), d') ∧
    savingGoals (store bank) !! id = None ∧
    getSavingGoal id (store d') = Some goal ∧
    goal_userId goal = isg_userId new_goal ∧
    targetAmount goal = Num.stored (isg_targetAmount new_goal) ∧
    currentAmount goal = Num.zero ∧
    completed goal = false ∧
    (∀ i, i ≠ id → savingGoals (store d') !! i = savingGoals (store bank) !! i) ∧
    sequences_fresh d' ∧
    ∀ amount, ∃ updatedGoal s'',
      updateSavingGoal id amount (store d') = (Returned (Some updatedGoal), s'') ∧
      currentAmount updatedGoal = Num.stored amount ∧
      completed updatedGoal = Num.geb amount (isg_targetAmount new_goal).
Proof.
  apply (createSavingGoal_spec new_goal bank).
  repeat split; try constructor; simpl.
  - intros id [a Ha]. destruct (decide (id = 1)) as [->|?]; [lia|].
    destruct (decide (id = 2)) as [->|?]; [lia|].
    now rewrite !lookup_insert_ne in Ha by done.
  - intros id [a Ha]. done.
Defined.

Lemma Object_entries_single k v : Object_entries [(k, v)] = [(k, v)].
Proof.
  unfold Object_entries. rewrite filter_cons, filter_nil. simpl.
  destruct (array_index k); reflexivity.
Qed.

(** The primary mood of a single entry. *)
Lemma primaryMood_single e :
  primaryMood [e] = if decide (mood e ∈ Object_prototype) then neutral else mood e.
Proof.
  unfold primaryMood, recentJournalEntries, moodCounts. simpl.
  unfold count_mood, Object_get, Object_set. simpl.
  destruct (decide (mood e ∈ Object_prototype)) as [Hin|Hin]; simpl.
  - destruct (decide (mood e = "__proto__")); [reflexivity|].
    now rewrite Object_entries_single.
  - rewrite decide_False by (intros Heq; apply Hin; rewrite Heq; by apply (bool_decide_unpack _)).
    now rewrite Object_entries_single.
Qed.

(** On a database whose sequences are ahead of its ids, [createJournalEntry]
    does not fail: the entry can be read back by its id and joins the
    entries listed for its user, the lists of the other users are the same,
    and the sequences stay ahead.  An entry later than all the user's
    entries is listed first; the first entry of a user sets the dominant
    mood, unless its mood is the name of a member of [Object.prototype], in
    which case the dominant mood is "neutral". *)
Theorem createJournalEntry_spec now insertEntry d :
  sequences_fresh d →
  let userId := ije_userId insertEntry in
  ∃ entry d',
    createJournalEntry now insertEntry d = (Returned entry, d') ∧
    mood entry = ije_mood insertEntry ∧
    getJournalEntry (je_id entry) (store d') = Some entry ∧
    getJournalEntriesByUserId userId (store d')
      ≡ₚ entry :: getJournalEntriesByUserId userId (store d) ∧
    (∀ other, other ≠ userId →
       getJournalEntriesByUserId other (store d')
         = getJournalEntriesByUserId other (store d)) ∧
    (Forall (λ e, je_date e < now) (getJournalEntriesByUserId userId (store d)) →
     getJournalEntriesByUserId userId (store d')
       = entry :: getJournalEntriesByUserId userId (store d)) ∧
    (getJournalEntriesByUserId userId (store d) = [] →
     dominantMood userId (store d')
       = if decide (ije_mood insertEntry ∈ Object_prototype) then neutral
         else ije_mood insertEntry) ∧
    sequences_fresh d'.
Proof.
  intros (Hacc & Hgoal & Hje & Hadv & Hu). cbv zeta.
  unfold createJournalEntry. rewrite bool_decide_eq_false_2.
  2:{ intros (e & He & Hin)%list_elem_of_fmap.
      rewrite Forall_forall in Hje. specialize (Hje _ Hin). simpl in Hje. lia. }
  set (userId := ije_userId insertEntry).
  set (entry := mkJournalEntry (journalEntries_seq d) userId (ije_entry insertEntry)
                  (ije_mood insertEntry) now).
  eexists entry, _. split; [reflexivity|].
  assert (filter (λ e, je_userId e = userId) (journalEntries (store d) ++ [entry])
          = filter (λ e, je_userId e = userId) (journalEntries (store d)) ++ [entry])
    as Hf.
  { now rewrite filter_app, filter_cons, decide_True, filter_nil. }
  assert (Forall (λ e, je_date e < now) (getJournalEntriesByUserId userId (store d)) →
          getJournalEntriesByUserId userId
            (mkStore (bankAccounts (store d)) (transactions (store d))
               (transactions_seq (store d)) (savingGoals (store d))
               (journalEntries (store d) ++ [entry]) (aiAdvices (store d)))
          = entry :: getJournalEntriesByUserId userId (store d)) as Hnewest.
  { intros Hnew. unfold getJournalEntriesByUserId in *. simpl. rewrite Hf.
    apply orderBy_desc_newest. apply Forall_forall. intros e He.
    rewrite Forall_forall in Hnew. apply Hnew.
    now rewrite orderBy_desc_perm. }
  simpl. repeat split; try done.
  - unfold getJournalEntry. simpl. rewrite filter_app, filter_cons, decide_True by done.
    rewrite (filter_none _ (journalEntries (store d))); [done|].
    eapply Forall_impl; [exact Hje|]. simpl. intros; lia.
  - unfold getJournalEntriesByUserId. simpl. rewrite Hf, !orderBy_desc_perm.
    symmetry. apply Permutation_cons_append.
  - intros other Hne. unfold getJournalEntriesByUserId. simpl.
    rewrite filter_app, filter_cons, decide_False, filter_nil, app_nil_r; [done|].
    simpl. congruence.
  - intros Hempty. unfold dominantMood. rewrite Hnewest by (rewrite Hempty; constructor).
    rewrite Hempty. apply primaryMood_single.
  - apply Forall_app. split.
    + eapply Forall_impl; [exact Hje|]. simpl. intros; lia.
    + repeat constructor. simpl. lia.
Qed.

Lemma createJournalEntry_spec_witness :
  ∃ entry d',
    createJournalEntry 1000 good_day bank = (Returned entry, d') ∧
    mood entry = ije_mood good_day ∧
    getJournalEntry (je_id entry) (store d') = Some entry ∧
    getJournalEntriesByUserId 1 (store d')
      ≡ₚ entry :: getJournalEntriesByUserId 1 (store bank) ∧
    (∀ other, other ≠ 1 →
       getJournalEntriesByUserId other (store d')
         = getJournalEntriesByUserId other (store bank)) ∧
    (Forall (λ e, je_date e < 1000) (getJournalEntriesByUserId 1 (store bank)) →
     getJournalEntriesByUserId 1 (store d')
       = entry :: getJournalEntriesByUserId 1 (store bank)) ∧
    (getJournalEntriesByUserId 1 (store bank) = [] →
     dominantMood 1 (store d')
       = if decide (ije_mood good_day ∈ Object_prototype) then neutral
         else ije_mood good_day) ∧
    sequences_fresh d'.
Proof.
  apply (createJournalEntry_spec 1000 good_day bank).
  repeat split; try constructor; simpl.
  - intros id [a Ha]. destruct (decide (id = 1)) as [->|?]; [lia|].
    destruct (decide (id = 2)) as [->|?]; [lia|].
    now rewrite !lookup_insert_ne in Ha by done.
  - intros id [a Ha]. done.
Defined.

(** On a database whose sequences are ahead of its ids, [createAiAdvice]
    does not fail: the advice carries the query and the response given, can
    be read back by its id and joins the advice listed for its user; the
    lists of the other users and every other table are the same, and the
    sequences stay ahead. *)
Theorem createAiAdvice_spec now insertAdvice d :
  sequences_fresh d →
  ∃ advice d',
    createAiAdvice now insertAdvice d = (Returned advice, d') ∧
    adv_query advice = iaa_query insertAdvice ∧
    adv_response advice = iaa_response insertAdvice ∧
    getAiAdvice (adv_id advice) (store d') = Some advice ∧
    getAiAdvicesByUserId (iaa_userId insertAdvice) (store d')
      ≡ₚ advice :: getAiAdvicesByUserId (iaa_userId insertAdvice) (store d) ∧
    (∀ other, other ≠ iaa_userId insertAdvice →
       getAiAdvicesByUserId other (store d') = getAiAdvicesByUserId other (store d)) ∧
    (bankAccounts (store d') = bankAccounts (store d) ∧
     transactions (store d') = transactions (store d) ∧
     savingGoals (store d') = savingGoals (store d) ∧
     journalEntries (store d') = journalEntries (store d) ∧
     users d' = users d) ∧
    sequences_fresh d'.
Proof.
  intros (Hacc & Hgoal & Hje & Hadv & Hu).
  unfold createAiAdvice. rewrite bool_decide_eq_false_2.
  2:{ intros (a & Ha & Hin)%list_elem_of_fmap.
      rewrite Forall_forall in Hadv. specialize (Hadv _ Hin). simpl in Hadv. lia. }
  eexists _, _. split; [reflexivity|]. simpl. repeat split; try done.
  - unfold getAiAdvice. simpl. rewrite filter_app, filter_cons, decide_True by done.
    rewrite (filter_none _ (aiAdvices (store d))); [done|].
    eapply Forall_impl; [exact Hadv|]. simpl. intros; lia.
  - unfold getAiAdvicesByUserId. simpl.
    rewrite filter_app, filter_cons, decide_True, filter_nil, !orderBy_desc_perm by done.
    symmetry. apply Permutation_cons_append.
  - intros other Hne. unfold getAiAdvicesByUserId. simpl.
    rewrite filter_app, filter_cons, decide_False, filter_nil, app_nil_r; [done|].
    simpl. congruence.
  - apply Forall_app. split.
    + eapply Forall_impl; [exact Hadv|]. simpl. intros; lia.
    + repeat constructor. simpl. lia.
Qed.

Lemma createAiAdvice_spec_witness :
  ∃ advice d',
    createAiAdvice 1000 asked bank = (Returned advice, d') ∧
    adv_query advice = iaa_query asked ∧
    adv_response advice = iaa_response asked ∧
    getAiAdvice (adv_id advice) (store d') = Some advice ∧
    getAiAdvicesByUserId (iaa_userId asked) (store d')
      ≡ₚ advice :: getAiAdvicesByUserId (iaa_userId asked) (store bank) ∧
    (∀ other, other ≠ iaa_userId asked →
       getAiAdvicesByUserId other (store d') = getAiAdvicesByUserId other (store bank)) ∧
    (bankAccounts (store d') = bankAccounts (store bank) ∧
     transactions (store d') = transactions (store bank) ∧
     savingGoals (store d') = savingGoals (store bank) ∧
     journalEntries (store d') = journalEntries (store bank) ∧
     users d' = users bank) ∧
    sequences_fresh d'.
Proof.
  apply (createAiAdvice_spec 1000 asked bank).
  repeat split; try constructor; simpl.
  - intros id [a Ha]. destruct (decide (id = 1)) as [->|?]; [lia|].
    destruct (decide (id = 2)) as [->|?]; [lia|].
    now rewrite !lookup_insert_ne in Ha by done.
  - intros id [a Ha]. done.
Defined.

(** [createUser] keeps usernames distinct.  On a database whose sequences
    are ahead of its ids and whose usernames are pairwise distinct: when it
    returns, the username and the email were free, the user is appended and
    can be read back by id and by username; when it throws, the username or
    the email was taken and no row changed. *)
Theorem createUser_spec insertUser d :
  sequences_fresh d →
  NoDup (username <$> users d) →
  match createUser insertUser d with
  | (Returned user, d') =>
      (iu_username insertUser ∉ (username <$> users d)) ∧
      (iu_email insertUser ∉ (email <$> users d)) ∧
      users d' = users d ++ [user] ∧
      username user = iu_username insertUser ∧
      getUser (user_id user) d' = Some user ∧
      getUserByUsername (iu_username insertUser) d' = Some user ∧
      NoDup (username <$> users d') ∧
      sequences_fresh d'
  | (Thrown _, d') =>
      (iu_username insertUser ∈ (username <$> users d) ∨
       iu_email insertUser ∈ (email <$> users d)) ∧
      users d' = users d ∧ store d' = store d
  end.
Proof.
  intros (Hacc & Hgoal & Hje & Hadv & Hu) Hnd. unfold createUser.
  rewrite bool_decide_eq_false_2.
  2:{ intros (u & He & Hin)%list_elem_of_fmap.
      rewrite Forall_forall in Hu. specialize (Hu _ Hin). simpl in Hu. lia. }
  case_bool_decide as Hname; [simpl; tauto|].
  case_bool_decide as Hmail; [simpl; tauto|].
  simpl. repeat split; try done.
  - unfold getUser. simpl. rewrite filter_app, filter_cons, decide_True by done.
    rewrite (filter_none _ (users d)); [done|].
    eapply Forall_impl; [exact Hu|]. simpl. intros; lia.
  - unfold getUserByUsername. simpl. rewrite filter_app, filter_cons, decide_True by done.
    rewrite (filter_none _ (users d)); [done|].
    apply Forall_forall. intros u Hin Heq. apply Hname, list_elem_of_fmap. eauto.
  - rewrite fmap_app. apply NoDup_app. repeat split; [done| |apply NoDup_singleton].
    intros x Hx ->%list_elem_of_singleton. contradiction.
  - apply Forall_app. split.
    + eapply Forall_impl; [exact Hu|]. simpl. intros; lia.
    + repeat constructor. simpl. lia.
Qed.

Lemma createUser_spec_witness :
  match createUser thandi one_user with
  | (Returned user, d') =>
      (iu_username thandi ∉ (username <$> users one_user)) ∧
      (iu_email thandi ∉ (email <$> users one_user)) ∧
      users d' = users one_user ++ [user] ∧
      username user = iu_username thandi ∧
      getUser (user_id user) d' = Some user ∧
      getUserByUsername (iu_username thandi) d' = Some user ∧
      NoDup (username <$> users d') ∧
      sequences_fresh d'
  | (Thrown _, d') =>
      (iu_username thandi ∈ (username <$> users one_user) ∨
       iu_email thandi ∈ (email <$> users one_user)) ∧
      users d' = users one_user ∧ store d' = store one_user
  end.
Proof.
  apply (createUser_spec thandi one_user).
  - repeat split; try constructor; simpl.
    + intros id [a Ha]. destruct (decide (id = 1)) as [->|?]; [lia|].
      destruct (decide (id = 2)) as [->|?]; [lia|].
      now rewrite !lookup_insert_ne in Ha by done.
    + intros id [a Ha]. done.
    + lia.
    + constructor.
  - repeat constructor. intros H. by apply elem_of_nil in H.
Defined.

(** ** The routes: who may change what *)

Lemma TransferData_eta td :
  mkTransferData (fromAccountId td) (toAccountId td) (amount td) (description td) = td.
Proof. now destruct td. Qed.

(** [POST /api/transfer] answers 401 without a session and 403 unless the
    session's user owns both accounts; it changes the store only when it
    answers 201, which it does only for the owner of both accounts and with
    the rows [transferFunds] returned; it never reports a missing account. *)
Theorem post_transfer_authorized now session reqBody s :
  let r := (post_transfer now session reqBody s).1 in
  let s' := (post_transfer now session reqBody s).2 in
  (session = None → status r = 401) ∧
  (∀ user td, session = Some user → reqBody = inr td →
     ¬ (owns (user_id user) (fromAccountId td) s ∧ owns (user_id user) (toAccountId td) s) →
     status r = 403) ∧
  (status r = 201 →
     ∃ user td rows,
       session = Some user ∧ reqBody = inr td ∧
       owns (user_id user) (fromAccountId td) s ∧
       owns (user_id user) (toAccountId td) s ∧
       body r = Json rows ∧
       transferFunds now td s = (Returned rows, s')) ∧
  (status r ≠ 201 → s' = s) ∧
  (∀ td, reqBody = inr td →
     body r ≠ Failure "Failed to transfer funds" (Some "One or both accounts do not exist")).
Proof.
  unfold post_transfer, ensureAuthenticated.
  destruct session as [user|]; [|refused].
  destruct reqBody as [error|td]; [refused|].
  rewrite TransferData_eta.
  destruct (some_account (fromAccountId td) (getBankAccountsByUserId (user_id user) s))
    eqn:Hfrom;
  destruct (some_account (toAccountId td) (getBankAccountsByUserId (user_id user) s))
    eqn:Hto; simpl;
    try refused.
  apply some_account_owns in Hfrom as Hof. apply some_account_owns in Hto as Hot.
  destruct (transferFunds_cases now td s)
    as [(src & tgt & Hsrc & Htgt & Hlt & Hrun)|(msg & Hrun & Hmissing)].
  - rewrite Hrun. simpl. repeat split; try done.
    + intros u td' [= <-] [= <-] Hno. tauto.
    + intros _. eexists user, td, _. repeat split; done.
  - rewrite Hrun. simpl. repeat split; try done.
    + intros u td' [= <-] [= <-] Hno. tauto.
    + intros td' _ [= Hmsg].
      destruct Hof as (a & Ha & _), Hot as (b & Hb & _).
      destruct (Hmissing Hmsg); congruence.
Qed.

(** [POST /api/transactions] answers 401 without a session and 403 unless
    the session's user owns the account, so in particular when the account
    does not exist; it changes the store only when it answers 201, and then
    the balance of the account has been updated. *)
Theorem post_transactions_authorized now session reqBody s :
  let r := (post_transactions now session reqBody s).1 in
  let s' := (post_transactions now session reqBody s).2 in
  (session = None → status r = 401) ∧
  (∀ user ins, session = Some user → reqBody = inr ins →
     ¬ owns (user_id user) (ins_accountId ins) s → status r = 403) ∧
  (∀ ins, reqBody = inr ins → bankAccounts s !! ins_accountId ins = None →
     status r = 401 ∨ status r = 403) ∧
  (status r = 201 →
     ∃ user ins acct row,
       session = Some user ∧ reqBody = inr ins ∧
       bankAccounts s !! ins_accountId ins = Some acct ∧
       acc_userId acct = user_id user ∧
       body r = Json row ∧
       createTransaction now ins s = (Returned row, s') ∧
       balance <$> bankAccounts s' !! ins_accountId ins
         = Some (Num.stored (new_balance ins acct))) ∧
  (status r ≠ 201 → s' = s).
Proof.
  unfold post_transactions, ensureAuthenticated.
  destruct session as [user|]; [|refused].
  destruct reqBody as [error|ins]; [refused|].
  destruct (some_account (ins_accountId ins) (getBankAccountsByUserId (user_id user) s))
    eqn:Hacc; simpl.
  - apply some_account_owns in Hacc as Hown. destruct Hown as (acct & Hacct & Hu).
    rewrite createTransaction_returns. simpl. rewrite Hacct. repeat split; try done.
    + intros u i [= <-] [= <-] Hno. exfalso. apply Hno. now exists acct.
    + intros i [= <-] Hnone. congruence.
    + intros _. exists user, ins, acct, (new_row now ins s). repeat split; try done.
      * rewrite createTransaction_returns. now rewrite Hacct.
      * now rewrite (lookup_set_balance _ _ acct).
  - refused.
Qed.

(** [PATCH /api/goals/:goalId] answers 401 without a session and 403 when
    the goal does not exist or belongs to another user; it changes the store
    only when it answers 200, which it does only for the owner of the goal
    and with the updated goal, never with [undefined]. *)
Theorem patch_goal_authorized session goalId reqBody s :
  let r := (patch_goal session goalId reqBody s).1 in
  let s' := (patch_goal session goalId reqBody s).2 in
  (session = None → status r = 401) ∧
  (∀ user amount, session = Some user → reqBody = inr amount →
     goal_userId <$> savingGoals s !! goalId ≠ Some (user_id user) → status r = 403) ∧
  (status r = 200 →
     ∃ user amount goal updatedGoal,
       session = Some user ∧ reqBody = inr amount ∧
       savingGoals s !! goalId = Some goal ∧
       goal_userId goal = user_id user ∧
       body r = Json (Some updatedGoal) ∧
       updateSavingGoal goalId amount s = (Returned (Some updatedGoal), s')) ∧
  (status r ≠ 200 → s' = s).
Proof.
  unfold patch_goal, ensureAuthenticated, getSavingGoal.
  destruct session as [user|]; [|refused].
  destruct reqBody as [error|amount]; [refused|].
  destruct (savingGoals s !! goalId) as [goal|] eqn:Hgoal;
    [|refused].
  case_bool_decide as Howner; [refused|].
  assert (goal_userId goal = user_id user) as Hu.
  { destruct (decide (goal_userId goal = user_id user)); [done|contradiction]. }
  destruct (updateSavingGoal_existing goalId amount s goal Hgoal) as [Hrun _].
  cbn zeta in Hrun. rewrite Hrun. simpl. repeat split; try done.
  - intros u a [= <-] [= <-] Hno. exfalso. apply Hno. now rewrite Hu.
  - intros _. eexists user, amount, goal, _. repeat split; done.
Qed.


(** [GET /api/goals], [GET /api/journal] and [GET /api/ai/advice] answer 401
    without a session, never change the store, and list exactly the goals,
    the journal entries and the advice of the session's user, the entries
    and the advice newest first. *)
Theorem get_own_rows session s :
  ((get_goals session s).2 = s ∧ (get_journal session s).2 = s ∧
   (get_advice session s).2 = s) ∧
  (session = None →
     status (get_goals session s).1 = 401 ∧
     status (get_journal session s).1 = 401 ∧
     status (get_advice session s).1 = 401) ∧
  (∀ user, session = Some user →
     (∃ l, (get_goals session s).1 = mkResponse 200 (Json l) ∧
           ∀ id g, (id, g) ∈ l ↔
                   savingGoals s !! id = Some g ∧ goal_userId g = user_id user) ∧
     (∃ l, (get_journal session s).1 = mkResponse 200 (Json l) ∧
           l ≡ₚ filter (λ e, je_userId e = user_id user) (journalEntries s) ∧
           newest_first je_date l) ∧
     (∃ l, (get_advice session s).1 = mkResponse 200 (Json l) ∧
           l ≡ₚ filter (λ a, adv_userId a = user_id user) (aiAdvices s) ∧
           newest_first adv_date l)).
Proof.
  unfold get_goals, get_journal, get_advice, ensureAuthenticated.
  split; [|split].
  - now destruct session.
  - now intros ->.
  - intros user ->. simpl. repeat split.
    + eexists. split; [done|]. intros id g.
      unfold getSavingGoalsByUserId.
      rewrite list_elem_of_filter, elem_of_map_to_list. simpl. tauto.
    + eexists. split; [done|]. split; [apply orderBy_desc_perm|].
      apply orderBy_desc_newest_first.
    + eexists. split; [done|]. split; [apply orderBy_desc_perm|].
      apply orderBy_desc_newest_first.
Qed.

(** [POST /api/accounts], [POST /api/goals] and [POST /api/journal] answer
    401 without a session and then change nothing; a row they create belongs
    to the session's user, whatever user id the body carried, and a created
    goal starts at current amount 0, not completed. *)
Theorem post_routes_owner now session accountBody goalBody entryBody d :
  (session = None →
     post_accounts session accountBody d = (mkResponse 401 (Failure "Unauthorized" None), d) ∧
     post_goals session goalBody d = (mkResponse 401 (Failure "Unauthorized" None), d) ∧
     post_journal now session entryBody d
       = (mkResponse 401 (Failure "Unauthorized" None), d)) ∧
  (status (post_accounts session accountBody d).1 = 201 →
     ∃ user id account,
       session = Some user ∧
       body (post_accounts session accountBody d).1 = Json (id, account) ∧
       acc_userId account = user_id user ∧
       getBankAccount id (store (post_accounts session accountBody d).2) = Some account) ∧
  (status (post_goals session goalBody d).1 = 201 →
     ∃ user id goal,
       session = Some user ∧
       body (post_goals session goalBody d).1 = Json (id, goal) ∧
       goal_userId goal = user_id user ∧
       currentAmount goal = Num.zero ∧ completed goal = false ∧
       getSavingGoal id (store (post_goals session goalBody d).2) = Some goal) ∧
  (status (post_journal now session entryBody d).1 = 201 →
     ∃ user entry,
       session = Some user ∧
       body (post_journal now session entryBody d).1 = Json entry ∧
       je_userId entry = user_id user ∧
       entry ∈ journalEntries (store (post_journal now session entryBody d).2)).
Proof.
  unfold post_accounts, post_goals, post_journal, ensureAuthenticated.
  destruct session as [user|]; [|refused].
  split; [done|]. repeat split.
  - destruct accountBody as [error|ab]; [done|].
    unfold createBankAccount. simpl.
    destruct (bankAccounts (store d) !! bankAccounts_seq d); [done|]. simpl. intros _.
    eexists user, _, _. repeat split. unfold getBankAccount. simpl.
    apply lookup_insert_eq.
  - destruct goalBody as [error|gb]; [done|].
    unfold createSavingGoal. simpl.
    destruct (savingGoals (store d) !! savingGoals_seq d); [done|]. simpl. intros _.
    eexists user, _, _. repeat split. unfold getSavingGoal. simpl.
    apply lookup_insert_eq.
  - destruct entryBody as [error|eb]; [done|].
    unfold createJournalEntry. simpl. case_bool_decide; [done|]. simpl. intros _.
    eexists user, _. repeat split. apply elem_of_app. right. left.
Qed.

(** ** Amounts that are not numbers *)

(** A transfer whose amount [parseFloat] cannot read is not refused: NaN is
    not greater than any balance, so the funds check passes, the transfer
    commits, and both accounts are left with the balance NaN. *)
Theorem transferFunds_nan_amount now td s src tgt :
  bankAccounts s !! fromAccountId td = Some src →
  bankAccounts s !! toAccountId td = Some tgt →
  amount td = S754_nan →
  ∃ rows s',
    transferFunds now td s = (Returned rows, s') ∧
    tx_amount rows.1 = S754_nan ∧ tx_amount rows.2 = S754_nan ∧
    balance <$> bankAccounts s' !! fromAccountId td = Some S754_nan ∧
    balance <$> bankAccounts s' !! toAccountId td = Some S754_nan.
Proof.
  intros Hsrc Htgt Hnan.
  assert (Num.ltb (balance src) (amount td) = false) as Hlt
    by (rewrite Hnan; now destruct (balance src)).
  eexists _, _. split; [now apply (transferFunds_commits now td s src tgt)|]. simpl.
  rewrite Hnan. repeat split.
  - destruct (decide (toAccountId td = fromAccountId td)) as [Heq|Hne].
    + rewrite Heq, lookup_alter_eq, lookup_alter_eq, Hsrc. simpl.
      now destruct (balance tgt).
    + rewrite lookup_alter_ne, lookup_alter_eq, Hsrc by done. simpl.
      now destruct (balance src).
  - rewrite lookup_alter_eq.
    destruct (decide (fromAccountId td = toAccountId td)) as [Heq|Hne].
    + rewrite Heq, lookup_alter_eq, Htgt. simpl. now destruct (balance tgt).
    + rewrite lookup_alter_ne, Htgt by done. simpl. now destruct (balance tgt).
Qed.

Lemma transferFunds_nan_amount_witness :
  ∃ rows s',
    transferFunds 1000 not_a_number two_accounts = (Returned rows, s') ∧
    tx_amount rows.1 = S754_nan ∧ tx_amount rows.2 = S754_nan ∧
    balance <$> bankAccounts s' !! 1 = Some S754_nan ∧
    balance <$> bankAccounts s' !! 2 = Some S754_nan.
Proof.
  apply (transferFunds_nan_amount 1000 not_a_number two_accounts account_A account_B);
    reflexivity.
Defined.

Lemma fund_nan g a : currentAmount g = S754_nan → fund g a = set_progress S754_nan false g.
Proof.
  unfold fund. intros ->.
  replace (Num.add S754_nan a) with S754_nan by now destruct a.
  replace (Num.geb S754_nan (targetAmount g)) with false by now destruct (targetAmount g).
  reflexivity.
Qed.

Lemma funded_nan l : ∀ g,
  currentAmount g = S754_nan →
  currentAmount (funded g l) = S754_nan ∧ (l ≠ [] → completed (funded g l) = false).
Proof.
  induction l as [|a l IH]; intros g Hg; [done|].
  destruct (IH (fund g a)) as [Hc Hd]; [now rewrite fund_nan|].
  split; [exact Hc|]. intros _. destruct l as [|b l]; [|now apply Hd].
  change (funded g [a]) with (fund g a). now rewrite fund_nan.
Qed.

(** A deposit whose amount [parseFloat] cannot read leaves the goal with the
    current amount NaN and not completed, and no later deposit, whatever its
    amounts, changes that: the goal can never complete again. *)
Theorem updateSavingGoal_nan_amount id s goal later :
  savingGoals s !! id = Some goal →
  ∃ goal',
    savingGoals (deposits id (S754_nan :: later) s) !! id = Some goal' ∧
    currentAmount goal' = S754_nan ∧ completed goal' = false ∧
    targetAmount goal' = targetAmount goal.
Proof.
  intros Hgoal. exists (funded goal (S754_nan :: later)).
  split; [now apply deposits_lookup|].
  assert (currentAmount (fund goal S754_nan) = S754_nan) as Hnan
    by (unfold fund; simpl; now destruct (currentAmount goal)).
  destruct (funded_nan later (fund goal S754_nan) Hnan) as [Hc Hd].
  split; [exact Hc|]. split; [|apply (funded_target (S754_nan :: later))].
  destruct later as [|a later]; [|now apply Hd].
  change (funded goal [S754_nan]) with (fund goal S754_nan). unfold fund. simpl.
  replace (Num.add (currentAmount goal) S754_nan) with S754_nan
    by now destruct (currentAmount goal).
  now destruct (targetAmount goal).
Qed.

Lemma updateSavingGoal_nan_amount_witness :
  ∃ goal',
    savingGoals (deposits 3 (S754_nan :: three_deposits) one_goal) !! 3 = Some goal' ∧
    currentAmount goal' = S754_nan ∧ completed goal' = false ∧
    targetAmount goal' = targetAmount holiday.
Proof.
  apply (updateSavingGoal_nan_amount 3 one_goal holiday three_deposits). reflexivity.
Defined.

(** ** The figures of the advice generator *)

Lemma foldl_add_nan l : foldl (λ sum account, Num.add sum (balance account)) S754_nan l
                        = S754_nan.
Proof. induction l as [|a l IH]; [done|]. simpl. exact IH. Qed.

(** The total balance handed to the advice generator is NaN as soon as one
    account of the user has the balance NaN. *)
Theorem totalBalance_nan accounts account :
  account ∈ accounts → balance account = S754_nan → totalBalance accounts = S754_nan.
Proof.
  unfold totalBalance. intros Hin Hnan. generalize Num.zero.
  induction accounts as [|a accounts IH]; intros sum; [by apply elem_of_nil in Hin|].
  apply elem_of_cons in Hin as [<-|Hin]; simpl.
  - rewrite Hnan. replace (Num.add sum S754_nan) with S754_nan by now destruct sum.
    apply foldl_add_nan.
  - now apply IH.
Qed.

Lemma totalBalance_nan_witness :
  totalBalance [account_A; set_balance S754_nan account_B] = S754_nan.
Proof.
  apply (totalBalance_nan [account_A; set_balance S754_nan account_B]
           (set_balance S754_nan account_B)).
  - right. left.
  - reflexivity.
Defined.

Lemma Number_div_same s m e :
  Number_div (S754_finite s m e) (S754_finite s m e) = Num.of_Z 1.
Proof.
  unfold Number_div, SFdiv, SFdiv_core_binary. cbv zeta.
  replace (Zdigits2 (Z.pos m) + e - (Zdigits2 (Z.pos m) + e)) with 0 by lia.
  rewrite Z.sub_diag.
  change (Z.min (fexp Num.prec Num.emax 0) 0) with (-53).
  change (0 - -53) with 53.
  destruct (Z.div_eucl (Z.shiftl (Z.pos m) 53) (Z.pos m)) as [q r] eqn:Hqr.
  assert (q = Z.shiftl (Z.pos m) 53 / Z.pos m) as Hq by (unfold Z.div; now rewrite Hqr).
  assert (r = Z.shiftl (Z.pos m) 53 mod Z.pos m) as Hr
    by (unfold Z.modulo; now rewrite Hqr).
  rewrite Z.shiftl_mul_pow2, Z.mul_comm in Hq, Hr by lia.
  rewrite Z.div_mul in Hq by lia. rewrite Z.mod_mul in Hr by lia. subst q r.
  rewrite xorb_nilpotent.
  replace (new_location (Z.pos m) 0) with loc_Exact
    by (unfold new_location; now destruct (Z.even (Z.pos m))).
  reflexivity.
Qed.

(** A goal whose current amount equals its target is reported to the
    advice generator under its name with a progress of exactly 100 percent
    when that amount is a finite number other than zero, and with the
    progress NaN when it is zero, infinite or NaN. *)
Theorem savingsProgress_reached goals i goal :
  goals !! i = Some goal →
  currentAmount goal = targetAmount goal →
  ∃ p, savingsProgress goals !! i = Some p ∧
       gp_name p = goal_name goal ∧
       progressPercentage p =
         match targetAmount goal with
         | S754_finite _ _ _ => Num.of_Z 100
         | _ => S754_nan
         end.
Proof.
  intros Hi Hc. unfold savingsProgress. rewrite list_lookup_fmap, Hi. simpl.
  eexists. split; [reflexivity|]. split; [reflexivity|]. simpl.
  rewrite Hc. destruct (targetAmount goal) as [?|?| |sg m e]; try reflexivity.
  rewrite Number_div_same. reflexivity.
Qed.

Lemma savingsProgress_reached_witness :
  ∃ p, savingsProgress [holiday; reached] !! 1%nat = Some p ∧
       gp_name p = goal_name reached ∧
       progressPercentage p =
         match targetAmount reached with
         | S754_finite _ _ _ => Num.of_Z 100
         | _ => S754_nan
         end.
Proof.
  apply (savingsProgress_reached [holiday; reached] 1 reached); reflexivity.
Defined.

(** A goal whose target is zero is reported with a progress that is not a
    finite number: NaN when nothing is saved, an infinity otherwise. *)
Theorem savingsProgress_zero_target goals i goal st :
  goals !! i = Some goal →
  targetAmount goal = S754_zero st →
  ∃ p, savingsProgress goals !! i = Some p ∧
       Num.is_finite (progressPercentage p) = false ∧
       (Num.is_finite (currentAmount goal) = true →
        progressPercentage p = S754_nan ↔ ∃ sc, currentAmount goal = S754_zero sc).
Proof.
  intros Hi Ht. unfold savingsProgress. rewrite list_lookup_fmap, Hi. simpl.
  eexists. split; [reflexivity|]. simpl. rewrite Ht.
  destruct (currentAmount goal) as [sc|sc| |sc m e]; simpl; repeat split; try done;
    eauto; intros (? & ?); done.
Qed.

Lemma savingsProgress_zero_target_witness :
  ∃ p, savingsProgress [no_target] !! 0%nat = Some p ∧
       Num.is_finite (progressPercentage p) = false ∧
       (Num.is_finite (currentAmount no_target) = true →
        progressPercentage p = S754_nan ↔ ∃ sc, currentAmount no_target = S754_zero sc).
Proof.
  apply (savingsProgress_zero_target [no_target] 0 no_target false); reflexivity.
Defined.

(** The transactions summarised for the advice generator are at most ten,
    each the summary of a ledger row of an account the user owns, and none
    of the user's transactions left out is newer than one summarised. *)
Theorem recentTransactions_newest userId s :
  let all := getTransactionsByUserId userId s in
  length (recentTransactions all) = (length all `min` 10)%nat ∧
  (∀ r, r ∈ recentTransactions all →
        ∃ t, t ∈ transactions s ∧ owns userId (tx_accountId t) s ∧
             rt_amount r = tx_amount t ∧ rt_date r = tx_date t ∧ rt_type r = tx_type t ∧
             ∀ t', t' ∈ drop 10 all → tx_date t' ≤ tx_date t).
Proof.
  intros all. unfold recentTransactions. split.
  - rewrite length_fmap, length_take. lia.
  - intros r (t & -> & Ht)%list_elem_of_fmap. exists t. simpl.
    assert (t ∈ all) as Hall by now apply (subseteq_take 10 all).
    unfold all in Hall. rewrite getTransactionsByUserId_perm in Hall.
    apply list_elem_of_filter in Hall as [Hown Hin].
    repeat split; try done.
    + destruct (bankAccounts s !! tx_accountId t) as [a|] eqn:Ha; [|done].
      exists a. split; [done|]. simpl in Hown. congruence.
    + intros t' Ht'. revert Ht Ht'. unfold all, getTransactionsByUserId.
      case_decide; [intros H'; by apply elem_of_nil in H'|].
      apply (orderBy_desc_take_drop tx_date).
Qed.

(** Two different moods share the entries between them. *)
Lemma occurrences_two a b l :
  a ≠ b → (occurrences a l + occurrences b l ≤ length l)%nat.
Proof.
  intros Hab. unfold occurrences. induction l as [|x l IH]; [done|].
  rewrite !filter_cons. simpl.
  destruct (decide (x = a)), (decide (x = b)); simpl; try lia. congruence.
Qed.

(** The dominant mood is the mood of the majority: a mood carried by more
    than half of the user's five most recent journal entries is the one the
    advice generator takes, whatever the other moods are, provided it is not
    the name of a member of [Object.prototype]. *)
Theorem dominantMood_majority userId s m :
  m ∉ Object_prototype →
  let recent := mood <$> take 5 (getJournalEntriesByUserId userId s) in
  (length recent < 2 * occurrences m recent)%nat →
  dominantMood userId s = m.
Proof.
  intros Hm recent Hmaj. unfold dominantMood. rewrite primaryMood_scan.
  destruct (getJournalEntriesByUserId userId s) as [|e entries] eqn:E.
  { unfold recent in Hmaj. simpl in Hmaj. lia. }
  set (es := take 5 (e :: entries)) in *.
  pose proof (moodCounts_spec es) as Hspec. cbv zeta in Hspec.
  destruct Hspec as [Hnd Hown]. fold recent in Hown.
  destruct (scan (0%nat, neutral)
              ((λ p, (p.1, count_of p.2)) <$> Object_entries (moodCounts es)))
    as [a q] eqn:Hscan.
  destruct (scan_max _ _ _ _ _ Hscan) as (_ & Hall & Hres). cbn [snd].
  assert (m ∈ recent) as Hin.
  { destruct (decide (m ∈ recent)) as [|Hno]; [done|].
    rewrite (occurrences_notin m recent Hno) in Hmaj. lia. }
  assert ((occurrences m recent ≤ a)%nat) as Hle.
  { apply (Hall m). apply list_elem_of_fmap. exists (m, number (occurrences m recent)).
    split; [done|]. apply elem_of_Object_entries, own_property_elem_of.
    rewrite Hown.
    rewrite (decide_True (P := m ∈ recent ∧ m ≠ "__proto__")).
    - now rewrite decide_False.
    - split; [done|]. intros ->. apply Hm. by apply (bool_decide_unpack _). }
  destruct Hres as [[= -> ->]|[Ha Hq]]; [lia|].
  apply list_elem_of_fmap in Hq as ([k v] & [= -> ->] & Hp).
  apply elem_of_Object_entries, (elem_of_own_property _ _ _ Hnd) in Hp.
  rewrite Hown in Hp. cbn [fst snd] in *.
  destruct (decide (k ∈ recent ∧ k ≠ "__proto__")); [|done].
  destruct (decide (k ∈ Object_prototype)); injection Hp as <-;
    cbn [count_of] in *; [lia|].
  destruct (decide (k = m)) as [|Hne]; [done|].
  pose proof (occurrences_two m k recent (not_eq_sym Hne)). lia.
Qed.

Lemma dominantMood_majority_witness : dominantMood 1 three_entries = happy.
Proof.
  apply (dominantMood_majority 1 three_entries happy).
  - by apply (bool_decide_unpack _).
  - vm_compute. lia.
Defined.
